(** * A shallow embedding of [web/app.py]

    The program is a thin FastAPI facade over an OpenSearch cluster.  The
    embedding has three layers:

    - [Py]: the fragment of Python's [str] that the program uses
      ([split], [strip], truthiness, slicing), over sequences of Unicode
      code points;
    - [Engine]: a small model of the external cluster (indices by name,
      stored and searchable documents, the request log, a clock) together
      with the state-and-exception monad the client calls live in;
    - [App]: the functions of [web/app.py], in source order and under their
      source names.  *)

From Stdlib Require Import String Ascii.
From stdpp Require Import gmap list fin_maps.

#[local] Set Warnings "-clear-no-such-hyp".

(** ** Python strings *)

Module Py.

Local Open Scope N_scope.

(** A Python [str] is a sequence of code points; [len], slicing and
    [strip] all count code points, never bytes. *)
Abbreviation pystr := (list N).

(** Literals of the source are ASCII. *)
Definition str (s : string) : pystr := N_of_ascii <$> list_ascii_of_string s.

(** [bool(s)] for a [str]: only the empty string is falsy. *)
Definition truthy (s : pystr) : bool :=
  match s with
  | [] => false
  | _ :: _ => true
  end.

(** [bool(o)] for an [Optional[str]]: [None] and [""] are falsy. *)
Definition truthy_opt (o : option pystr) : bool :=
  match o with
  | None => false
  | Some s => truthy s
  end.

(** [c.isspace()] for one code point (CPython's [_PyUnicode_IsWhitespace]). *)
Definition isspace (c : N) : bool :=
  (9 <=? c) && (c <=? 13)
  || (28 <=? c) && (c <=? 32)
  || (c =? 133) || (c =? 160) || (c =? 5760)
  || (8192 <=? c) && (c <=? 8202)
  || (c =? 8232) || (c =? 8233) || (c =? 8239) || (c =? 8287) || (c =? 12288).

(** [s.lstrip()], [s.rstrip()] and [s.strip()] with no argument. *)
Fixpoint lstrip (s : pystr) : pystr :=
  match s with
  | [] => []
  | c :: s' => if isspace c then lstrip s' else s
  end.

Definition rstrip (s : pystr) : pystr := reverse (lstrip (reverse s)).

Definition strip (s : pystr) : pystr := rstrip (lstrip s).

(** [s.split(sep)] for a one-character separator: never returns the empty
    list, and keeps empty pieces. *)
Fixpoint split (sep : N) (s : pystr) : list pystr :=
  match s with
  | [] => [[]]
  | c :: s' =>
      if c =? sep then [] :: split sep s'
      else match split sep s' with
           | [] => [[c]]
           | p :: ps => (c :: p) :: ps
           end
  end.

(** [s[:n]] for [n >= 0]. *)
Definition slice_to (n : nat) (s : pystr) : pystr := take n s.

Definition comma : N := 44.

End Py.

Import Py.

(** ** The external engine *)

Module Engine.

(** Values of document fields as they come back in a hit's [_source]: the
    index maps [title] and [content] as text, so a field is a JSON string
    or JSON [null], or it is missing from the object altogether. *)
Inductive jval : Type :=
  | JNull
  | JStr (s : pystr).

#[global] Instance jval_eq_dec : EqDecision jval.
Proof. solve_decision. Defined.

(** A JSON object, that is a Python [dict] with [str] keys. *)
Abbreviation object := (gmap pystr jval).

Inductive field_type : Type := Text | Keyword.

(** The body of an index-creation request. *)
Record index_body : Type := IndexBody {
  number_of_shards : nat;
  number_of_replicas : nat;
  properties : gmap pystr field_type
}.

(** The fragment of the query DSL that the program emits. *)
Inductive clause : Type :=
  | MultiMatch (query : pystr) (fields : list pystr)
  | Term (field : pystr) (value : pystr).

Inductive query : Type :=
  | MatchAll
  | BoolMust (must : list clause).

Record search_body : Type := SearchBody {
  sb_query : query;
  sb_source : list pystr;
  sb_size : nat
}.

Record hit : Type := Hit { hit_id : Z; hit_source : object }.

(** An index keeps every indexed document in [stored]; searches and counts
    only see [searchable], the snapshot taken by the last refresh. *)
Record index : Type := Index {
  idx_body : option index_body;
  stored : list (Z * object);
  searchable : list (Z * object)
}.

Inductive request : Type :=
  | ReqHealth
  | ReqExists (name : pystr)
  | ReqCreate (name : pystr) (body : index_body)
  | ReqCount (name : pystr)
  | ReqIndex (name : pystr) (id : Z) (doc : object) (refresh : bool)
  | ReqRefresh (name : pystr)
  | ReqSearch (name : pystr) (body : search_body).

(** What [client.cluster.health()] does on one call: it raises (the
    cluster is unreachable or answers with an error status), or it returns
    a value [h].  [None] stands for a falsy [h]; [Some st] for a dict
    whose ["status"] entry is [st] ([None] when the key is missing). *)
Inductive health_outcome : Type :=
  | HealthRaises
  | HealthReturns (h : option (option pystr)).

(** One scripted answer of the cluster: how long the call takes, and how it
    ends. *)
Record health_reply : Type := HealthReply {
  latency : nat;
  outcome : health_outcome
}.

(** The world the program runs in.  [requests] is the chronological log of
    the requests sent to the cluster, each stamped with the time it was
    sent; [health_script] holds the answers the cluster will give to the
    coming health requests, after which it is unreachable. *)
Record world : Type := World {
  indices : gmap pystr index;
  requests : list (nat * request);
  clock : nat;
  health_script : list health_reply
}.

Definition set_indices (f : gmap pystr index → gmap pystr index) (w : world) : world :=
  World (f (indices w)) (requests w) (clock w) (health_script w).

Definition set_clock (f : nat → nat) (w : world) : world :=
  World (indices w) (requests w) (f (clock w)) (health_script w).

Definition set_health_script (s : list health_reply) (w : world) : world :=
  World (indices w) (requests w) (clock w) s.

Definition add_request (r : request) (w : world) : world :=
  World (indices w) (requests w ++ [(clock w, r)]) (clock w) (health_script w).

(** Exceptions.  [FuelExhausted] is not a Python exception: it marks a
    loop that the model cut off, and [wait_loop_fuel] shows that the one
    loop of the program never produces it. *)
Inductive exn : Type :=
  | RuntimeError (msg : pystr)
  | ConnectionError
  | NotFoundError
  | RequestError
  | ValidationError
  | FuelExhausted.

Inductive result (A : Type) : Type :=
  | Ok (a : A)
  | Raised (e : exn).
Arguments Ok {A} a.
Arguments Raised {A} e.

(** Computations that read and change the world and may raise; what was
    done before a [raise] stays done. *)
Definition M (A : Type) : Type := world → result A * world.

Definition ret {A} (a : A) : M A := λ w, (Ok a, w).

Definition raise {A} (e : exn) : M A := λ w, (Raised e, w).

Definition bind {A B} (m : M A) (k : A → M B) : M B :=
  λ w, match m w with
       | (Ok a, w') => k a w'
       | (Raised e, w') => (Raised e, w')
       end.

(** [try: m  except Exception: ...] hands the outcome to the handler. *)
Definition try_catch {A} (m : M A) : M (result A) :=
  λ w, let '(r, w') := m w in (Ok r, w').

Declare Scope engine_scope.
Delimit Scope engine_scope with M.
Notation "x <- m ;; k" := (bind m (λ x, k))
  (at level 100, m at next level, right associativity) : engine_scope.
Notation "m ;; k" := (bind m (λ _, k))
  (at level 100, right associativity) : engine_scope.
Local Open Scope engine_scope.

(** [for x in l: f(x)] *)
Fixpoint for_each {A} (l : list A) (f : A → M unit) : M unit :=
  match l with
  | [] => ret tt
  | x :: l' => f x ;; for_each l' f
  end.

Definition send (r : request) : M unit := λ w, (Ok tt, add_request r w).

(** [time.time()] and [time.sleep(n)] *)
Definition time_time : M nat := λ w, (Ok (clock w), w).

Definition time_sleep (n : nat) : M unit := λ w, (Ok tt, set_clock (λ t, t + n) w).

(** [client.cluster.health()] *)
Definition cluster_health : M (option (option pystr)) :=
  send ReqHealth ;;
  λ w, match health_script w with
       | [] => (Raised ConnectionError, w)
       | r :: rest =>
           let w' := set_clock (λ t, t + latency r) (set_health_script rest w) in
           match outcome r with
           | HealthRaises => (Raised ConnectionError, w')
           | HealthReturns h => (Ok h, w')
           end
       end.

(** [client.indices.exists(name)] *)
Definition indices_exists (name : pystr) : M bool :=
  send (ReqExists name) ;;
  λ w, (Ok (bool_decide (is_Some (indices w !! name))), w).

(** [client.indices.create(index=name, body=body)] *)
Definition indices_create (name : pystr) (body : index_body) : M unit :=
  send (ReqCreate name body) ;;
  λ w, match indices w !! name with
       | Some _ => (Raised RequestError, w)
       | None => (Ok tt, set_indices <[name := Index (Some body) [] []]> w)
       end.

(** [client.count(index=name)["count"]] *)
Definition count (name : pystr) : M nat :=
  send (ReqCount name) ;;
  λ w, match indices w !! name with
       | Some idx => (Ok (length (searchable idx)), w)
       | None => (Raised NotFoundError, w)
       end.

(** Writing a document under an id replaces the document of that id. *)
Definition put_doc (id : Z) (doc : object) (docs : list (Z * object)) : list (Z * object) :=
  filter (λ d, d.1 ≠ id) docs ++ [(id, doc)].

(** [client.index(index=name, id=id, body=doc, refresh=refresh)]; a missing
    index is created on the fly, without an explicit mapping. *)
Definition index_doc (name : pystr) (id : Z) (doc : object) (refresh : bool) : M unit :=
  send (ReqIndex name id doc refresh) ;;
  λ w, let idx := default (Index None [] []) (indices w !! name) in
       let docs := put_doc id doc (stored idx) in
       let idx' := Index (idx_body idx) docs (if refresh then docs else searchable idx) in
       (Ok tt, set_indices <[name := idx']> w).

(** [client.indices.refresh(index=name)] *)
Definition indices_refresh (name : pystr) : M unit :=
  send (ReqRefresh name) ;;
  λ w, match indices w !! name with
       | Some idx =>
           (Ok tt, set_indices <[name := Index (idx_body idx) (stored idx) (stored idx)]> w)
       | None => (Raised NotFoundError, w)
       end.

Section Search.

(** Whether a full-text query matches the value of one text field is
    decided by the engine's analyzer. *)
Variable analyzed_match : pystr → pystr → bool.

Definition clause_matches (c : clause) (doc : object) : bool :=
  match c with
  | MultiMatch q fields =>
      existsb (λ f, match doc !! f with
                    | Some (JStr v) => analyzed_match q v
                    | _ => false
                    end) fields
  | Term f v => bool_decide (doc !! f = Some (JStr v))
  end.

(** Every clause under [must] has to match. *)
Definition query_matches (q : query) (doc : object) : bool :=
  match q with
  | MatchAll => true
  | BoolMust must => forallb (λ c, clause_matches c doc) must
  end.

(** Source filtering: only the requested fields come back. *)
Definition source_filter (fields : list pystr) (doc : object) : object :=
  filter (λ kv, kv.1 ∈ fields) doc.

(** The hits of a search: the matching searchable documents, at most
    [size] of them.  The order among the hits of a scored query is the
    engine's business; the model keeps index order. *)
Definition run_search (idx : index) (b : search_body) : list hit :=
  take (sb_size b)
    ((λ d, Hit d.1 (source_filter (sb_source b) d.2))
       <$> filter (λ d, query_matches (sb_query b) d.2 = true) (searchable idx)).

(** [client.search(index=name, body=b)["hits"]["hits"]] *)
Definition search (name : pystr) (b : search_body) : M (list hit) :=
  send (ReqSearch name b) ;;
  λ w, match indices w !! name with
       | Some idx => (Ok (run_search idx b), w)
       | None => (Raised NotFoundError, w)
       end.

End Search.

End Engine.

Import Engine.
Local Open Scope engine_scope.

(** ** The application *)

Module App.

Section App.

(** The process environment, read once at import time. *)
Variable environ : gmap pystr pystr.

(** The analyzer of the cluster the client talks to. *)
Variable analyzed_match : pystr → pystr → bool.

(** [os.getenv(key, default)] *)
Definition getenv (key default_value : pystr) : pystr :=
  default default_value (environ !! key).

Definition INDEX_NAME : pystr := getenv (str "INDEX_NAME") (str "docs").

(** [[x.strip() for x in os.getenv(...).split(",") if x.strip()]] *)
Definition CONTENT_TYPES : list pystr :=
  strip <$> filter (λ x, truthy (strip x))
    (split comma (getenv (str "CONTENT_TYPES") (str "article,news,blog,report"))).

(** [health and health.get("status")] as a condition *)
Definition health_ok (health : option (option pystr)) : bool :=
  match health with
  | Some (Some status) => truthy status
  | _ => false
  end.

(** The [while] loop of [wait_for_opensearch]; [fuel] bounds the number of
    iterations. *)
Fixpoint wait_loop (fuel : nat) (start timeout_sec : nat) : M bool :=
  match fuel with
  | O => raise FuelExhausted
  | S fuel' =>
      now <- time_time ;;
      if bool_decide (now - start < timeout_sec) then
        r <- try_catch cluster_health ;;
        match r with
        | Ok health =>
            if health_ok health then ret true
            else wait_loop fuel' start timeout_sec
        | Raised _ =>
            time_sleep 2 ;;
            wait_loop fuel' start timeout_sec
        end
      else raise (RuntimeError (str "OpenSearch not available"))
  end.

(** Every iteration either consumes a scripted answer or sleeps with the
    script used up, so this much fuel is never exhausted. *)
Definition wait_fuel (timeout_sec : nat) (w : world) : nat :=
  S (length (health_script w) + timeout_sec).

Definition wait_for_opensearch (timeout_sec : nat) : M bool :=
  λ w, wait_loop (wait_fuel timeout_sec w) (clock w) timeout_sec w.

Definition index_mapping : index_body :=
  {| number_of_shards := 1;
     number_of_replicas := 0;
     properties := {[ str "title" := Text;
                      str "content" := Text;
                      str "content_type" := Keyword ]} |}.

Definition ensure_index : M unit :=
  found <- indices_exists INDEX_NAME ;;
  if negb found then indices_create INDEX_NAME index_mapping
  else ret tt.

Definition document (title content content_type : pystr) : object :=
  {[ str "title" := JStr title;
     str "content" := JStr content;
     str "content_type" := JStr content_type ]}.

Definition seed : list object :=
  [ document (str "title1") (str "content1") (str "article");
    document (str "title2") (str "content2") (str "news");
    document (str "title3") (str "content3") (str "blog");
    document (str "title4") (str "content4") (str "report");
    document (str "title5") (str "content5") (str "article") ].

(** [enumerate(l)] *)
Definition enumerate {A} (l : list A) : list (Z * A) :=
  imap (λ i x, (Z.of_nat i, x)) l.

Definition seed_docs : M unit :=
  n <- count INDEX_NAME ;;
  if 0 <? n then ret tt
  else
    for_each (enumerate seed)
      (λ '(i, doc), index_doc INDEX_NAME (i + 1)%Z doc false) ;;
    indices_refresh INDEX_NAME.

Definition startup : M unit :=
  wait_for_opensearch 60 ;;
  ensure_index ;;
  seed_docs.

Record SearchResponseItem : Type := Item {
  title : pystr;
  snippet : pystr
}.

(** The constructor of the pydantic model validates that both fields are
    strings. *)
Definition new_SearchResponseItem (title snippet : jval) : M SearchResponseItem :=
  match title, snippet with
  | JStr t, JStr s => ret (Item t s)
  | _, _ => raise ValidationError
  end.

(** [item.model_dump()] *)
Definition model_dump (item : SearchResponseItem) : object :=
  {[ str "title" := JStr (title item); str "snippet" := JStr (snippet item) ]}.

(** [d.get(key, default)] *)
Definition dict_get (d : object) (key : pystr) (default_value : jval) : jval :=
  default default_value (d !! key).

(** [v or ""], for a value [v] that is a string or [None] *)
Definition or_empty (v : jval) : pystr :=
  match v with
  | JStr s => if truthy s then s else []
  | JNull => []
  end.

(** [o or ""], for an [Optional[str]] *)
Definition opt_or_empty (o : option pystr) : pystr :=
  match o with
  | Some s => if truthy s then s else []
  | None => []
  end.

(** The body of the loop over the hits. *)
Definition format_hit (h : hit) : M SearchResponseItem :=
  let src := hit_source h in
  let content := or_empty (dict_get src (str "content") (JStr [])) in
  let snippet := slice_to 50 content in
  new_SearchResponseItem (dict_get src (str "title") (JStr [])) (JStr snippet).

Fixpoint format_hits (hits : list hit) : M (list SearchResponseItem) :=
  match hits with
  | [] => ret []
  | h :: hits' =>
      item <- format_hit h ;;
      items <- format_hits hits' ;;
      ret (item :: items)
  end.

(** The part of [do_search] after [must] is complete. *)
Definition run_query (must : list clause) : M (list SearchResponseItem) :=
  let query := if bool_decide (must ≠ []) then BoolMust must else MatchAll in
  hits <- search analyzed_match INDEX_NAME
            {| sb_query := query;
               sb_source := [str "title"; str "content"];
               sb_size := 25 |} ;;
  format_hits hits.

Definition do_search (q : pystr) (content_type : option pystr)
  : M (list SearchResponseItem) :=
  let must := [] in
  let must :=
    if truthy q then must ++ [MultiMatch q [str "title"; str "content"]]
    else must in
  match content_type with
  | Some ct =>
      if truthy ct then
        if bool_decide (ct ∉ CONTENT_TYPES) then ret []
        else run_query (must ++ [Term (str "content_type") ct])
      else run_query must
  | None => run_query must
  end.

(** The template context that [home] renders. *)
Record context : Type := Context {
  ctx_q : pystr;
  ctx_content_types : list pystr;
  ctx_selected_type : pystr;
  ctx_results : list SearchResponseItem
}.

Definition home (q : pystr) (content_type : option pystr) : M context :=
  results <- (if truthy q || truthy_opt content_type
              then do_search q content_type
              else ret []) ;;
  ret {| ctx_q := q;
         ctx_content_types := CONTENT_TYPES;
         ctx_selected_type := opt_or_empty content_type;
         ctx_results := results |}.

Definition api_search (q : pystr) (content_type : option pystr) : M (list object) :=
  items <- do_search q content_type ;;
  ret (model_dump <$> items).

End App.

End App.

Import App.

#[global] Arguments str : simpl never.
#[global] Arguments INDEX_NAME : simpl never.
#[global] Arguments CONTENT_TYPES : simpl never.
#[global] Arguments index_mapping : simpl never.
#[global] Arguments document : simpl never.
#[global] Arguments seed : simpl never.

(** * Vocabulary of the statements *)

(** The allow-list as the specification words it: split on commas, strip
    every piece, discard the pieces that are empty after stripping. *)
Definition allow_list_spec (value : pystr) : list pystr :=
  filter (λ piece, piece ≠ []) (strip <$> split comma value).

(** The requests of a log that create an index called [name]. *)
Definition creations (name : pystr) (log : list (nat * request)) : list index_body :=
  omap (λ entry, match entry.2 with
                 | ReqCreate n body => if decide (n = name) then Some body else None
                 | _ => None
                 end) log.

(** Formatting never touches the world, so it has a pure reading. *)
Definition formatted (h : hit) : result SearchResponseItem :=
  match dict_get (hit_source h) (str "title") (JStr []) with
  | JStr t =>
      Ok (Item t (take 50 (or_empty (dict_get (hit_source h) (str "content") (JStr [])))))
  | JNull => Raised ValidationError
  end.

Fixpoint formatted_all (hits : list hit) : result (list SearchResponseItem) :=
  match hits with
  | [] => Ok []
  | h :: hits' =>
      match formatted h with
      | Ok item =>
          match formatted_all hits' with
          | Ok items => Ok (item :: items)
          | Raised e => Raised e
          end
      | Raised e => Raised e
      end
  end.

(** What the specification calls the title and the content of a hit: the
    string under the key, and the empty string when the key is missing.
    For the content the program also reads JSON [null] as empty. *)
Definition title_of (src : object) (t : pystr) : Prop :=
  src !! (str "title") = Some (JStr t)
  ∨ (src !! (str "title") = None ∧ t = []).

Definition content_of (src : object) (c : pystr) : Prop :=
  src !! (str "content") = Some (JStr c)
  ∨ (src !! (str "content") = None ∧ c = [])
  ∨ (src !! (str "content") = Some JNull ∧ c = []).

Definition map_result {A B} (f : A → B) (r : result A) : result B :=
  match r with
  | Ok a => Ok (f a)
  | Raised e => Raised e
  end.

Definition clauses_of (q : query) : list clause :=
  match q with
  | MatchAll => []
  | BoolMust must => must
  end.

(** The clauses that [do_search] collects for a filter that passes. *)
Definition must_clauses (q : pystr) (content_type : option pystr) : list clause :=
  (if truthy q then [MultiMatch q [str "title"; str "content"]] else [])
  ++ match content_type with
     | Some ct => if truthy ct then [Term (str "content_type") ct] else []
     | None => []
     end.

(** The body of the search request built from the collected clauses. *)
Definition request_body (must : list clause) : search_body :=
  {| sb_query := if bool_decide (must ≠ []) then BoolMust must else MatchAll;
     sb_source := [str "title"; str "content"];
     sb_size := 25 |}.

(** Sample worlds: a cluster that answers its health requests with status
    green and holds no index, and the same cluster after one [startup]
    under the default configuration.  The sample analyzer matches a query
    against a field value that equals it. *)
Definition whole_value_match (q v : pystr) : bool := bool_decide (q = v).

Definition green : health_reply :=
  HealthReply 0 (HealthReturns (Some (Some (str "green")))).

Definition fresh_world : world := World ∅ [] 0 [green; green].

Definition seeded_world : world := (startup ∅ fresh_world).2.

(** A typed document: id, title, content and content type. *)
Definition stored_document (d : Z * (pystr * pystr * pystr)) : Z * object :=
  (d.1, document d.2.1.1 d.2.1.2 d.2.2).

(** The [{title, snippet}] object the specification expects for it: the
    title under [title], the first 50 characters of the content under
    [snippet], and no other key. *)
Definition expected_object (d : Z * (pystr * pystr * pystr)) : object :=
  {[ str "title" := JStr d.2.1.1; str "snippet" := JStr (take 50 d.2.1.2) ]}.

Definition seed_documents : list (Z * (pystr * pystr * pystr)) :=
  [ (1%Z, (str "title1", str "content1", str "article"));
    (2%Z, (str "title2", str "content2", str "news"));
    (3%Z, (str "title3", str "content3", str "blog"));
    (4%Z, (str "title4", str "content4", str "report"));
    (5%Z, (str "title5", str "content5", str "article")) ].

(** The documents of an index after the loop of [seed_docs] has written
    [docs] (pairs of position and document) under the ids [position + 1],
    and the requests that loop sends. *)
Definition index_all (docs : list (Z * object)) (old : list (Z * object))
  : list (Z * object) :=
  foldl (λ acc d, put_doc (d.1 + 1) d.2 acc) old docs.

Definition index_requests (name : pystr) (docs : list (Z * object)) : list request :=
  (λ d, ReqIndex name (d.1 + 1) d.2 false) <$> docs.

(** The index that [ensure_index] leaves behind, and the one that
    [seed_docs] leaves behind. *)
Definition provisioned (o : option index) : index :=
  default (Index (Some index_mapping) [] []) o.

Definition seeded (idx : index) : index :=
  match searchable idx with
  | [] => Index (idx_body idx) (index_all (enumerate seed) (stored idx))
                (index_all (enumerate seed) (stored idx))
  | _ :: _ => idx
  end.

(** An index that is missing, or present without any document. *)
Definition no_documents (o : option index) : Prop :=
  o = None ∨ ∃ body, o = Some (Index body [] []).

(** The times at which the health requests of a log were sent. *)
Definition health_poll_times (log : list (nat * request)) : list nat :=
  omap (λ entry, match entry.2 with
                 | ReqHealth => Some entry.1
                 | _ => None
                 end) log.

(** A scripted answer that makes [wait_for_opensearch] return. *)
Definition healthy (r : health_reply) : Prop :=
  ∃ h, outcome r = HealthReturns h ∧ health_ok h = true.

(** Scripted answers: the call raises at once; the call returns at once a
    body without a status, such as [{}]. *)
Definition refused : health_reply := HealthReply 0 HealthRaises.

Definition no_status : health_reply := HealthReply 0 (HealthReturns None).

Definition timeout_error : exn := RuntimeError (str "OpenSearch not available").

(** Sample contents of 60 and of 10 characters. *)
Definition sixty_characters : pystr :=
  str "abcdefghijklmnopqrstuvwxyzABCDEFGHIJKLMNOPQRSTUVWXYZ01234567".

Definition ten_characters : pystr := str "abcdefghij".

(** The ids under which [seed_docs] writes. *)
Definition seed_ids : list Z := [1; 2; 3; 4; 5]%Z.

(** A sample world whose index holds two documents that were written but
    not yet refreshed, under the ids 2 and 9. *)
Definition pending_world : world :=
  World {[ str "docs" :=
             Index (Some index_mapping)
               [ (2%Z, document (str "old2") (str "written before") (str "blog"));
                 (9%Z, document (str "old9") (str "also written before") (str "news")) ]
               [] ]}
        [] 0 [green].

(** A step that only reads: the indices, the clock and the script are as
    before, and the log has grown by at most one entry, a search on the
    index [name]. *)
Definition read_only_step (name : pystr) (w w' : world) : Prop :=
  indices w' = indices w
  ∧ clock w' = clock w
  ∧ health_script w' = health_script w
  ∧ (requests w' = requests w
     ∨ ∃ body, requests w' = requests w ++ [(clock w, ReqSearch name body)]).

(** The record expected for a typed document. *)
Definition expected_item (d : Z * (pystr * pystr * pystr)) : SearchResponseItem :=
  Item d.2.1.1 (take 50 d.2.1.2).

(** Whether a typed document is selected by [q] and [content_type]: a
    non-empty [q] must match the title or the content, a non-empty
    [content_type] must equal the document's content type. *)
Definition selects (am : pystr → pystr → bool) (q : pystr)
    (content_type : option pystr) (d : Z * (pystr * pystr * pystr)) : bool :=
  (if truthy q then am q d.2.1.1 || am q d.2.1.2 else true)
  && match content_type with
     | Some ct => if truthy ct then bool_decide (d.2.2 = ct) else true
     | None => true
     end.

(** A sample world whose index holds one good document and one whose
    title is JSON [null]. *)
Definition null_title_world : world :=
  World {[ str "docs" :=
             Index (Some index_mapping)
               [ (1%Z, document (str "fine") (str "text") (str "blog"));
                 (2%Z, {[ str "title" := JNull; str "content" := JStr (str "text") ]}) ]
               [ (1%Z, document (str "fine") (str "text") (str "blog"));
                 (2%Z, {[ str "title" := JNull; str "content" := JStr (str "text") ]}) ] ]}
        [] 0 [].

(** Sample hits: one with a JSON [null] title, its sibling with a JSON
    [null] content, and one without a title. *)
Definition null_title_hit : hit :=
  Hit 2 {[ str "title" := JNull; str "content" := JStr (str "text") ]}.

Definition null_content_hit : hit :=
  Hit 3 {[ str "title" := JStr (str "fine"); str "content" := JNull ]}.

Definition missing_title_hit : hit :=
  Hit 4 {[ str "content" := JStr (str "text") ]}.

(** * Properties *)

#[global] Arguments index_all : simpl never.
#[global] Arguments enumerate : simpl never.
#[global] Arguments request_body : simpl never.

(** ** Strings *)

Example split_keeps_empty_pieces :
  split comma (str "a,,b") = [str "a"; str ""; str "b"].
Proof. reflexivity. Qed.

Example split_of_empty : split comma (str "") = [str ""].
Proof. reflexivity. Qed.

Example strip_unicode_space : strip (str "  news " ++ [9%N; 160%N]) = str "news".
Proof. reflexivity. Qed.

Lemma truthy_nonempty (s : pystr) : truthy s = true ↔ s ≠ [].
Proof. destruct s; simpl; split; congruence. Qed.

Lemma truthy_false_empty (s : pystr) : truthy s = false ↔ s = [].
Proof. destruct s; simpl; split; congruence. Qed.

(** [lstrip] removes a prefix made of whitespace only. *)
Lemma lstrip_decompose (s : pystr) :
  ∃ spaces, s = spaces ++ lstrip s ∧ Forall (λ c, isspace c = true) spaces.
Proof.
  induction s as [|c s (spaces & Heq & Hall)]; simpl.
  - by exists [].
  - destruct (isspace c) eqn:Hc.
    + exists (c :: spaces). split; [simpl; congruence | by constructor].
    + by exists [].
Qed.

Lemma lstrip_head (s : pystr) (c : N) :
  head (lstrip s) = Some c → isspace c = false.
Proof.
  induction s as [|d s IH]; simpl; [done|].
  destruct (isspace d) eqn:Hd; [done|].
  simpl. by intros [= <-].
Qed.

(** [rstrip] removes a suffix made of whitespace only. *)
Lemma rstrip_decompose (s : pystr) :
  ∃ spaces, s = rstrip s ++ spaces ∧ Forall (λ c, isspace c = true) spaces.
Proof.
  destruct (lstrip_decompose (reverse s)) as (spaces & Heq & Hall).
  exists (reverse spaces). split.
  - unfold rstrip. rewrite <-reverse_app, <-Heq. by rewrite reverse_involutive.
  - by apply Forall_reverse.
Qed.

Lemma rstrip_last (s : pystr) (c : N) :
  last (rstrip s) = Some c → isspace c = false.
Proof. unfold rstrip. rewrite last_reverse. apply lstrip_head. Qed.

Lemma rstrip_head (s : pystr) (c : N) :
  head (rstrip s) = Some c → head s = Some c.
Proof.
  destruct (rstrip_decompose s) as (spaces & Heq & _).
  intros Hc. rewrite Heq. by destruct (rstrip s).
Qed.

Lemma strip_head (s : pystr) (c : N) :
  head (strip s) = Some c → isspace c = false.
Proof. intros Hc. by apply (lstrip_head s), rstrip_head. Qed.

Lemma strip_last (s : pystr) (c : N) :
  last (strip s) = Some c → isspace c = false.
Proof. apply rstrip_last. Qed.

(** ** Configuration *)

Lemma strip_filter_commute (pieces : list pystr) :
  strip <$> filter (λ x, truthy (strip x)) pieces
  = filter (λ piece, piece ≠ []) (strip <$> pieces).
Proof.
  induction pieces as [|x pieces IH]; [done|].
  csimpl. rewrite !filter_cons, <-IH.
  destruct (strip x) eqn:Hx; simpl.
  - repeat case_decide; naive_solver.
  - repeat case_decide; try naive_solver. csimpl. by rewrite Hx.
Qed.

Section Configuration.

Variable environ : gmap pystr pystr.

Lemma CONTENT_TYPES_unfold :
  CONTENT_TYPES environ
  = allow_list_spec (getenv environ (str "CONTENT_TYPES") (str "article,news,blog,report")).
Proof. apply strip_filter_commute. Qed.

Lemma CONTENT_TYPES_stripped (ct : pystr) :
  ct ∈ CONTENT_TYPES environ →
  ∃ piece, ct = strip piece ∧ ct ≠ [].
Proof.
  rewrite CONTENT_TYPES_unfold. unfold allow_list_spec.
  rewrite list_elem_of_filter, list_elem_of_fmap.
  intros (Hne & piece & -> & _). eauto.
Qed.

Lemma CONTENT_TYPES_truthy (ct : pystr) :
  ct ∈ CONTENT_TYPES environ → truthy ct = true.
Proof.
  intros (piece & _ & Hne)%CONTENT_TYPES_stripped. by apply truthy_nonempty.
Qed.

End Configuration.

(** C10.  Whatever the environment holds for [CONTENT_TYPES] (the default
    when the variable is unset), the allow-list is the value split on
    commas, each piece stripped, the empty pieces dropped; so no entry is
    the empty string, and no entry starts or ends with a whitespace
    character. *)
Theorem content_types_split_strip_filter (environ : gmap pystr pystr) :
  (∀ value,
     CONTENT_TYPES (<[(str "CONTENT_TYPES") := value]> environ) = allow_list_spec value)
  ∧ (environ !! (str "CONTENT_TYPES") = None →
     CONTENT_TYPES environ = allow_list_spec (str "article,news,blog,report"))
  ∧ ([] ∉ CONTENT_TYPES environ)
  ∧ (∀ ct c, ct ∈ CONTENT_TYPES environ →
       (head ct = Some c → isspace c = false)
       ∧ (last ct = Some c → isspace c = false)).
Proof.
  split_and!.
  - intros value. rewrite CONTENT_TYPES_unfold. unfold getenv.
    by rewrite lookup_insert_eq.
  - intros Hunset. rewrite CONTENT_TYPES_unfold. unfold getenv. by rewrite Hunset.
  - by intros (piece & _ & Hne)%CONTENT_TYPES_stripped.
  - intros ct c (piece & -> & _)%CONTENT_TYPES_stripped. split.
    + apply strip_head.
    + apply strip_last.
Qed.

(** ** Client calls, as equations *)

Section Calls.

Context {A B : Type}.

Lemma bind_ok (m : M A) (k : A → M B) (w w' : world) (a : A) :
  m w = (Ok a, w') → bind m k w = k a w'.
Proof. unfold bind. by intros ->. Qed.

Lemma bind_raised (m : M A) (k : A → M B) (w w' : world) (e : exn) :
  m w = (Raised e, w') → bind m k w = (Raised e, w').
Proof. unfold bind. by intros ->. Qed.

End Calls.

Lemma indices_exists_eq (name : pystr) (w : world) :
  indices_exists name w
  = (Ok (bool_decide (is_Some (indices w !! name))), add_request (ReqExists name) w).
Proof. reflexivity. Qed.

Lemma indices_create_fresh (name : pystr) (body : index_body) (w : world) :
  indices w !! name = None →
  indices_create name body w
  = (Ok tt, set_indices <[name := Index (Some body) [] []]>
              (add_request (ReqCreate name body) w)).
Proof. intros Hnone. unfold indices_create, bind. simpl. by rewrite Hnone. Qed.

Lemma count_found (name : pystr) (idx : index) (w : world) :
  indices w !! name = Some idx →
  count name w = (Ok (length (searchable idx)), add_request (ReqCount name) w).
Proof. intros Hidx. unfold count, bind. simpl. by rewrite Hidx. Qed.

Lemma indices_refresh_found (name : pystr) (idx : index) (w : world) :
  indices w !! name = Some idx →
  indices_refresh name w
  = (Ok tt, set_indices <[name := Index (idx_body idx) (stored idx) (stored idx)]>
              (add_request (ReqRefresh name) w)).
Proof. intros Hidx. unfold indices_refresh, bind. simpl. by rewrite Hidx. Qed.

Lemma search_found (am : pystr → pystr → bool) (name : pystr) (b : search_body)
    (idx : index) (w : world) :
  indices w !! name = Some idx →
  search am name b w = (Ok (run_search am idx b), add_request (ReqSearch name b) w).
Proof. intros Hidx. unfold search, bind. simpl. by rewrite Hidx. Qed.

Lemma search_missing (am : pystr → pystr → bool) (name : pystr) (b : search_body)
    (w : world) :
  indices w !! name = None →
  search am name b w = (Raised NotFoundError, add_request (ReqSearch name b) w).
Proof. intros Hidx. unfold search, bind. simpl. by rewrite Hidx. Qed.

(** A search only adds one entry to the request log. *)
Lemma search_world (am : pystr → pystr → bool) (name : pystr) (b : search_body)
    (w : world) :
  (search am name b w).2 = add_request (ReqSearch name b) w.
Proof.
  destruct (indices w !! name) as [idx|] eqn:Hidx.
  - by rewrite (search_found _ _ _ idx).
  - by rewrite search_missing.
Qed.

(** ** Index provisioning *)

Section Provisioning.

Variable environ : gmap pystr pystr.

Local Abbreviation name := (INDEX_NAME environ).

Lemma ensure_index_present (w : world) :
  is_Some (indices w !! name) →
  ensure_index environ w = (Ok tt, add_request (ReqExists name) w).
Proof.
  intros Hsome. unfold ensure_index.
  rewrite (bind_ok _ _ _ _ _ (indices_exists_eq _ _)).
  by rewrite bool_decide_true.
Qed.

Lemma ensure_index_absent (w : world) :
  indices w !! name = None →
  ensure_index environ w
  = (Ok tt, set_indices <[name := Index (Some index_mapping) [] []]>
              (add_request (ReqCreate name index_mapping)
                 (add_request (ReqExists name) w))).
Proof.
  intros Hnone. unfold ensure_index.
  rewrite (bind_ok _ _ _ _ _ (indices_exists_eq _ _)).
  rewrite bool_decide_false by (rewrite Hnone; by intros [? ?]).
  simpl. by rewrite indices_create_fresh.
Qed.

(** After [ensure_index] the index exists. *)
Lemma ensure_index_exists (w : world) :
  is_Some (indices (ensure_index environ w).2 !! name).
Proof.
  destruct (indices w !! name) as [idx|] eqn:Hidx.
  - rewrite ensure_index_present by eauto. simpl. rewrite Hidx. eauto.
  - rewrite ensure_index_absent by done. simpl. rewrite lookup_insert_eq. eauto.
Qed.

End Provisioning.

Lemma creations_add_request (name : pystr) (r : request) (w : world) :
  creations name (requests (add_request r w))
  = creations name (requests w)
    ++ match r with
       | ReqCreate n body => if decide (n = name) then [body] else []
       | _ => []
       end.
Proof.
  unfold creations. simpl. rewrite omap_app. f_equal.
  destruct r; simpl; try done. by case_decide.
Qed.

(** C9.  [ensure_index] sends a creation request only when the index is
    missing, and then with a mapping of exactly three fields, [title] and
    [content] as text and [content_type] as keyword; when the index exists
    nothing is created or changed.  As the index exists afterwards, a
    further run creates nothing: the mapping is created at most once. *)
Theorem ensure_index_creates_once (environ : gmap pystr pystr) (w : world) :
  let name := INDEX_NAME environ in
  let w1 := (ensure_index environ w).2 in
  let w2 := (ensure_index environ w1).2 in
  (is_Some (indices w !! name) →
     ensure_index environ w = (Ok tt, add_request (ReqExists name) w)
     ∧ indices w1 = indices w
     ∧ creations name (requests w1) = creations name (requests w))
  ∧ (indices w !! name = None →
     (ensure_index environ w).1 = Ok tt
     ∧ indices w1 = <[name := Index (Some index_mapping) [] []]> (indices w)
     ∧ creations name (requests w1) = creations name (requests w) ++ [index_mapping])
  ∧ (indices w2 = indices w1
     ∧ creations name (requests w2) = creations name (requests w1))
  ∧ (dom (properties index_mapping)
       = {[ str "title"; str "content"; str "content_type" ]}
     ∧ size (properties index_mapping) = 3
     ∧ properties index_mapping !! (str "title") = Some Text
     ∧ properties index_mapping !! (str "content") = Some Text
     ∧ properties index_mapping !! (str "content_type") = Some Keyword).
Proof.
  cbv zeta. split_and!.
  - intros Hsome. rewrite (ensure_index_present environ w Hsome).
    split_and!; [done..|].
    cbn [snd]. by rewrite creations_add_request, app_nil_r.
  - intros Hnone. rewrite (ensure_index_absent environ w Hnone).
    split_and!; [done..|].
    cbn [snd]. change (requests (set_indices ?f ?v)) with (requests v).
    rewrite !creations_add_request, app_nil_r.
    by rewrite decide_True.
  - pose proof (ensure_index_exists environ w) as Hsome.
    by rewrite (ensure_index_present environ _ Hsome).
  - pose proof (ensure_index_exists environ w) as Hsome.
    rewrite (ensure_index_present environ _ Hsome).
    cbn [snd]. by rewrite creations_add_request, app_nil_r.
  - by vm_compute.
  - by vm_compute.
  - by vm_compute.
  - by vm_compute.
  - by vm_compute.
Qed.

(** ** Formatting the hits *)

Lemma format_hit_eq (h : hit) (w : world) : format_hit h w = (formatted h, w).
Proof.
  unfold format_hit, formatted, new_SearchResponseItem, slice_to.
  by destruct (dict_get (hit_source h) (str "title") (JStr [])).
Qed.

Lemma format_hits_eq (hits : list hit) (w : world) :
  format_hits hits w = (formatted_all hits, w).
Proof.
  induction hits as [|h hits IH]; [done|].
  cbn [format_hits formatted_all]. unfold bind at 1. rewrite format_hit_eq.
  destruct (formatted h) as [item|e]; [|done].
  unfold bind at 1. rewrite IH.
  by destruct (formatted_all hits).
Qed.

Lemma formatted_all_length (hits : list hit) (items : list SearchResponseItem) :
  formatted_all hits = Ok items → length items = length hits.
Proof.
  revert items. induction hits as [|h hits IH]; intros items; simpl.
  - by intros [= <-].
  - destruct (formatted h); [|done].
    destruct (formatted_all hits) as [items'|]; [|done].
    intros [= <-]. simpl. by rewrite (IH items').
Qed.

Lemma or_empty_str (s : pystr) : or_empty (JStr s) = s.
Proof. by destruct s. Qed.

Lemma formatted_text (h : hit) (t c : pystr) :
  title_of (hit_source h) t → content_of (hit_source h) c →
  formatted h = Ok (Item t (take 50 c)).
Proof.
  unfold formatted, dict_get.
  intros [-> | [-> ->]] [-> | [[-> ->] | [-> ->]]]; simpl;
    try done; by destruct c.
Qed.

(** X18.  A hit whose title is the string [t] and whose content is the
    string [c] (each the empty string when the field is missing, the
    content also when it is [null]) is formatted as the record with title
    [t] and with the first 50 characters of [c] as snippet: a prefix of
    [c] of length [min 50 (len c)], which is [c] itself when [c] has at
    most 50 characters; nothing is appended. *)
Theorem format_hit_title_snippet (h : hit) (t c : pystr) (w : world) :
  title_of (hit_source h) t →
  content_of (hit_source h) c →
  format_hit h w = (Ok {| title := t; snippet := take 50 c |}, w)
  ∧ take 50 c `prefix_of` c
  ∧ length (take 50 c) = min 50 (length c)
  ∧ (length c ≤ 50 → take 50 c = c).
Proof.
  intros Ht Hc. split_and!.
  - by rewrite format_hit_eq, (formatted_text h t c).
  - apply prefix_take.
  - apply length_take.
  - apply take_ge.
Qed.

(** ** Searching *)

Ltac str_neq := let H := fresh in intros H; vm_compute in H; discriminate H.

(** Closed decidable facts, by evaluation. *)
Ltac by_evaluation :=
  lazymatch goal with
  | |- ¬ _ =>
      let H := fresh in
      let H' := fresh in
      intros H; pose proof (bool_decide_pack _ H) as H';
      vm_compute in H'; destruct H'
  | |- ?P => apply (bool_decide_unpack P); vm_compute; exact I
  end.

Lemma document_title (t c ty : pystr) :
  document t c ty !! (str "title") = Some (JStr t).
Proof. unfold document. apply lookup_insert_eq. Qed.

Lemma document_content (t c ty : pystr) :
  document t c ty !! (str "content") = Some (JStr c).
Proof.
  unfold document. rewrite lookup_insert_ne by str_neq. apply lookup_insert_eq.
Qed.

Lemma source_filter_lookup (fields : list pystr) (doc : object) (key : pystr) (v : jval) :
  key ∈ fields → doc !! key = Some v → source_filter fields doc !! key = Some v.
Proof. intros Hkey Hv. unfold source_filter. by apply map_lookup_filter_Some. Qed.

Lemma formatted_document (i : Z) (t c ty : pystr) :
  formatted (Hit i (source_filter [str "title"; str "content"] (document t c ty)))
  = Ok (Item t (take 50 c)).
Proof.
  apply formatted_text; left; simpl.
  - apply source_filter_lookup; [apply list_elem_of_here | apply document_title].
  - apply source_filter_lookup; [|apply document_content].
    apply list_elem_of_further, list_elem_of_here.
Qed.

Lemma formatted_all_documents (docs : list (Z * (pystr * pystr * pystr))) :
  formatted_all
    ((λ d, Hit d.1 (source_filter [str "title"; str "content"] d.2))
       <$> (stored_document <$> docs))
  = Ok ((λ d, Item d.2.1.1 (take 50 d.2.1.2)) <$> docs).
Proof.
  rewrite <-list_fmap_compose.
  induction docs as [|[i [[t c] ty]] docs IH]; [done|].
  rewrite !fmap_cons. cbn [formatted_all].
  change (formatted ((_ ∘ stored_document) _))
    with (formatted (Hit i (source_filter [str "title"; str "content"] (document t c ty)))).
  by rewrite formatted_document, IH.
Qed.

Lemma filter_match_all (am : pystr → pystr → bool) (docs : list (Z * object)) :
  filter (λ d, query_matches am MatchAll d.2 = true) docs = docs.
Proof.
  induction docs as [|d docs IH]; [done|].
  rewrite filter_cons_True by done. by rewrite IH.
Qed.

Section Searching.

Variable environ : gmap pystr pystr.
Variable am : pystr → pystr → bool.

Local Abbreviation name := (INDEX_NAME environ).

Lemma run_query_eq (must : list clause) (w : world) :
  run_query environ am must w
  = match indices w !! name with
    | Some idx => (formatted_all (run_search am idx (request_body must)),
                   add_request (ReqSearch name (request_body must)) w)
    | None => (Raised NotFoundError,
               add_request (ReqSearch name (request_body must)) w)
    end.
Proof.
  unfold run_query. fold (request_body must).
  destruct (indices w !! name) as [idx|] eqn:Hidx.
  - rewrite (bind_ok _ _ _ _ _ (search_found am _ _ idx w Hidx)).
    apply format_hits_eq.
  - by rewrite (bind_raised _ _ _ _ _ (search_missing am _ _ w Hidx)).
Qed.

Lemma run_query_world (must : list clause) (w : world) :
  (run_query environ am must w).2 = add_request (ReqSearch name (request_body must)) w.
Proof. rewrite run_query_eq. by destruct (indices w !! name). Qed.

(** With a filter that is empty or allowed, [do_search] runs the query
    made of the collected clauses. *)
Lemma do_search_passes (q : pystr) (content_type : option pystr) :
  truthy_opt content_type = false
  ∨ (∃ ct, content_type = Some ct ∧ ct ∈ CONTENT_TYPES environ) →
  do_search environ am q content_type
  = run_query environ am (must_clauses q content_type).
Proof.
  unfold do_search, must_clauses.
  intros [Hfalsy | (ct & -> & Hin)].
  - destruct content_type as [ct|]; simpl in Hfalsy.
    + rewrite Hfalsy. by rewrite app_nil_r.
    + by rewrite app_nil_r.
  - rewrite (CONTENT_TYPES_truthy environ ct Hin).
    rewrite bool_decide_false by (by intros Hnot).
    by destruct (truthy q).
Qed.

(** With a non-empty filter outside the allow-list, [do_search] returns at
    once and leaves the world as it is. *)
Lemma do_search_rejects (q ct : pystr) (w : world) :
  ct ≠ [] → ct ∉ CONTENT_TYPES environ →
  do_search environ am q (Some ct) w = (Ok [], w).
Proof.
  intros Hne%truthy_nonempty Hnot. unfold do_search.
  rewrite Hne. by rewrite bool_decide_true.
Qed.

Lemma home_eq (q : pystr) (content_type : option pystr) (w : world) :
  home environ am q content_type w
  = let '(r, w') :=
      (if truthy q || truthy_opt content_type
       then do_search environ am q content_type w
       else (Ok [], w)) in
    (map_result (Context q (CONTENT_TYPES environ) (opt_or_empty content_type)) r, w').
Proof.
  unfold home, bind.
  destruct (truthy q || truthy_opt content_type); [|done].
  by destruct (do_search environ am q content_type w) as [[items|e] w'].
Qed.

Lemma api_search_eq (q : pystr) (content_type : option pystr) (w : world) :
  api_search environ am q content_type w
  = let '(r, w') := do_search environ am q content_type w in
    (map_result (fmap model_dump) r, w').
Proof.
  unfold api_search, bind.
  by destruct (do_search environ am q content_type w) as [[items|e] w'].
Qed.

End Searching.

(** C1.  For every query string [q] and every [content_type] value that
    is provided, that is non-empty under the test [if content_type:] of the
    source, and that is not in the allow-list, [do_search], and with it the
    JSON endpoint, returns the empty list; it raises nothing and sends
    nothing to the engine, as the world is left as it was. *)
Theorem do_search_unknown_type_empty (environ : gmap pystr pystr)
    (am : pystr → pystr → bool) (q ct : pystr) (w : world) :
  ct ≠ [] →
  ct ∉ CONTENT_TYPES environ →
  do_search environ am q (Some ct) w = (Ok [], w)
  ∧ api_search environ am q (Some ct) w = (Ok [], w).
Proof.
  intros Hne Hnot. split.
  - by apply do_search_rejects.
  - by rewrite api_search_eq, do_search_rejects.
Qed.

Lemma do_search_unknown_type_empty_witness :
  do_search ∅ whole_value_match (str "content1") (Some (str "bogus")) seeded_world
  = (Ok [], seeded_world)
  ∧ api_search ∅ whole_value_match (str "content1") (Some (str "bogus")) seeded_world
    = (Ok [], seeded_world).
Proof.
  apply do_search_unknown_type_empty.
  - str_neq.
  - by_evaluation.
Defined.

(** An empty [content_type] is no filter at all: the three functions
    treat it as they treat a missing one. *)
Lemma empty_content_type_is_absent (environ : gmap pystr pystr)
    (am : pystr → pystr → bool) (q : pystr) :
  do_search environ am q (Some []) = do_search environ am q None
  ∧ home environ am q (Some []) = home environ am q None
  ∧ api_search environ am q (Some []) = api_search environ am q None.
Proof. by split_and!. Qed.

(** C4.  With the filter absent or in the allow-list, [do_search] sends
    one search request.  Its query holds the [multi_match] clause for [q]
    over [title] and [content] exactly when [q] is non-empty, the [term]
    clause on [content_type] exactly for the filter given, and no other
    clause; a document matches it exactly when it matches every clause; it
    is [match_all] exactly when there is no clause; its size is 25, and no
    more than 25 items are returned. *)
Theorem do_search_query_translation (environ : gmap pystr pystr)
    (am : pystr → pystr → bool) (q : pystr) (content_type : option pystr)
    (w : world) :
  content_type = None
  ∨ (∃ ct, content_type = Some ct ∧ ct ∈ CONTENT_TYPES environ) →
  ∃ body : search_body,
    requests (do_search environ am q content_type w).2
    = requests w ++ [(clock w, ReqSearch (INDEX_NAME environ) body)]
    ∧ (MultiMatch q [str "title"; str "content"] ∈ clauses_of (sb_query body)
       ↔ q ≠ [])
    ∧ (∀ ct, Term (str "content_type") ct ∈ clauses_of (sb_query body)
             ↔ content_type = Some ct)
    ∧ (∀ c, c ∈ clauses_of (sb_query body) →
            c = MultiMatch q [str "title"; str "content"]
            ∨ ∃ ct, c = Term (str "content_type") ct)
    ∧ (∀ doc, query_matches am (sb_query body) doc = true
              ↔ ∀ c, c ∈ clauses_of (sb_query body) → clause_matches am c doc = true)
    ∧ (sb_query body = MatchAll ↔ q = [] ∧ content_type = None)
    ∧ (sb_query body = MatchAll ∨ sb_query body = BoolMust (must_clauses q content_type))
    ∧ sb_size body = 25
    ∧ (∀ items, (do_search environ am q content_type w).1 = Ok items →
                length items ≤ 25).
Proof.
  intros Hvalid.
  assert (Hpass : truthy_opt content_type = false
                  ∨ (∃ ct, content_type = Some ct ∧ ct ∈ CONTENT_TYPES environ)).
  { destruct Hvalid as [-> | ?]; [by left | by right]. }
  assert (Hterm : ∀ ct, content_type = Some ct → truthy ct = true).
  { intros ct ->. destruct Hvalid as [? | (ct' & [= <-] & Hin)]; [done|].
    by apply (CONTENT_TYPES_truthy environ). }
  exists (request_body (must_clauses q content_type)).
  rewrite (do_search_passes environ am q content_type Hpass).
  set (must := must_clauses q content_type).
  assert (Hclauses : clauses_of (sb_query (request_body must)) = must).
  { unfold request_body. simpl. case_bool_decide as Hmust; [done|].
    simpl. by destruct must. }
  assert (Hmm : MultiMatch q [str "title"; str "content"] ∈ must ↔ q ≠ []).
  { unfold must, must_clauses. rewrite elem_of_app, <-truthy_nonempty.
    destruct (truthy q), content_type as [ct|]; try destruct (truthy ct);
      rewrite ?list_elem_of_singleton, ?elem_of_nil; naive_solver. }
  assert (Htm : ∀ ct, Term (str "content_type") ct ∈ must ↔ content_type = Some ct).
  { intros ct. unfold must, must_clauses. rewrite elem_of_app.
    destruct content_type as [ct'|].
    - rewrite (Hterm ct' eq_refl).
      destruct (truthy q);
        rewrite ?list_elem_of_singleton, ?elem_of_nil; naive_solver.
    - destruct (truthy q);
        rewrite ?list_elem_of_singleton, ?elem_of_nil; naive_solver. }
  assert (Hother : ∀ c, c ∈ must →
            c = MultiMatch q [str "title"; str "content"]
            ∨ ∃ ct, c = Term (str "content_type") ct).
  { intros c. unfold must, must_clauses. rewrite elem_of_app.
    destruct (truthy q), content_type as [ct|]; try destruct (truthy ct);
      rewrite ?list_elem_of_singleton, ?elem_of_nil; naive_solver. }
  assert (Hnil : must = [] ↔ q = [] ∧ content_type = None).
  { unfold must, must_clauses. rewrite <-truthy_false_empty.
    destruct content_type as [ct|].
    - rewrite (Hterm ct eq_refl). destruct (truthy q); naive_solver.
    - destruct (truthy q); naive_solver. }
  rewrite Hclauses. split_and!; try done.
  - by rewrite run_query_world.
  - intros doc. unfold request_body. simpl. case_bool_decide as Hmust; simpl.
    + rewrite <-Is_true_true, forallb_True, Forall_forall.
      by setoid_rewrite Is_true_true.
    + rewrite Hmust. split; [|done]. by intros _ c ?%elem_of_nil.
  - rewrite <-Hnil. unfold request_body. simpl.
    case_bool_decide as Hmust; naive_solver.
  - unfold request_body. simpl. case_bool_decide; [by right | by left].
  - intros items. rewrite run_query_eq.
    destruct (indices w !! INDEX_NAME environ) as [idx|]; [|done].
    cbn [fst]. intros Hitems. apply formatted_all_length in Hitems.
    rewrite Hitems. unfold run_search. rewrite length_take.
    apply Nat.le_min_l.
Qed.

Lemma do_search_query_translation_witness :
  ∃ body : search_body,
    requests (do_search ∅ whole_value_match (str "content1")
                (Some (str "article")) seeded_world).2
    = requests seeded_world ++ [(clock seeded_world, ReqSearch (INDEX_NAME ∅) body)]
    ∧ sb_query body
      = BoolMust [ MultiMatch (str "content1") [str "title"; str "content"];
                   Term (str "content_type") (str "article") ]
    ∧ sb_size body = 25.
Proof.
  destruct (do_search_query_translation ∅ whole_value_match (str "content1")
              (Some (str "article")) seeded_world)
    as (body & Hlog & _ & _ & _ & _ & Hall & Hmust & Hsize & _).
  - right. exists (str "article"). split; [reflexivity|].
    by_evaluation.
  - exists body. split_and!; [done| |done].
    destruct Hmust as [Hq | Hq]; [|done].
    apply Hall in Hq as [Hq _]. vm_compute in Hq. discriminate Hq.
Defined.

(** C5.  With [q] empty and [content_type] empty ([None] or [""]), [home]
    renders the empty result list and leaves the world, request log
    included, as it was.  With one of them non-empty it renders what
    [do_search] returns and has the effects of [do_search]; when the
    filter is empty or allowed these amount to one search request. *)
Theorem home_searches_only_with_input (environ : gmap pystr pystr)
    (am : pystr → pystr → bool) (q : pystr) (content_type : option pystr)
    (w : world) :
  (q = [] → content_type = None ∨ content_type = Some [] →
     home environ am q content_type w
     = (Ok {| ctx_q := []; ctx_content_types := CONTENT_TYPES environ;
              ctx_selected_type := []; ctx_results := [] |}, w))
  ∧ (q ≠ [] ∨ (∃ ct, content_type = Some ct ∧ ct ≠ []) →
     map_result ctx_results (home environ am q content_type w).1
     = (do_search environ am q content_type w).1
     ∧ (home environ am q content_type w).2
       = (do_search environ am q content_type w).2)
  ∧ (q ≠ [] ∨ (∃ ct, content_type = Some ct ∧ ct ≠ []) →
     content_type = None ∨ content_type = Some []
     ∨ (∃ ct, content_type = Some ct ∧ ct ∈ CONTENT_TYPES environ) →
     requests (home environ am q content_type w).2
     = requests w
       ++ [(clock w, ReqSearch (INDEX_NAME environ)
                       (request_body (must_clauses q content_type)))]).
Proof.
  assert (Hinput : q ≠ [] ∨ (∃ ct, content_type = Some ct ∧ ct ≠ []) →
                   truthy q || truthy_opt content_type = true).
  { intros [Hq%truthy_nonempty | (ct & -> & Hct%truthy_nonempty)]; simpl.
    - by rewrite Hq.
    - rewrite Hct. by destruct (truthy q). }
  split_and!.
  - intros -> Hct. rewrite home_eq.
    by destruct Hct as [-> | ->].
  - intros Hin%Hinput. rewrite home_eq, Hin.
    by destruct (do_search environ am q content_type w) as [[items|e] w'].
  - intros Hin%Hinput Hvalid. rewrite home_eq, Hin.
    rewrite do_search_passes; cycle 1.
    { destruct Hvalid as [-> | [-> | ?]]; [by left | by left | by right]. }
    pose proof (run_query_world environ am (must_clauses q content_type) w) as Hw.
    destruct (run_query environ am (must_clauses q content_type) w) as [r w'].
    simpl in Hw. by subst w'.
Qed.

Lemma home_searches_only_with_input_witness :
  home ∅ whole_value_match (str "") (Some (str "")) seeded_world
  = (Ok {| ctx_q := []; ctx_content_types := CONTENT_TYPES ∅;
           ctx_selected_type := []; ctx_results := [] |}, seeded_world)
  ∧ map_result ctx_results
      (home ∅ whole_value_match (str "title2") (Some (str "news")) seeded_world).1
    = (do_search ∅ whole_value_match (str "title2") (Some (str "news")) seeded_world).1
  ∧ requests (home ∅ whole_value_match (str "title2") (Some (str "news")) seeded_world).2
    = requests seeded_world
      ++ [(clock seeded_world,
           ReqSearch (INDEX_NAME ∅)
             (request_body (must_clauses (str "title2") (Some (str "news")))))].
Proof.
  split_and!.
  - apply (home_searches_only_with_input ∅ whole_value_match (str "")
             (Some (str "")) seeded_world); [reflexivity | by right].
  - apply (home_searches_only_with_input ∅ whole_value_match (str "title2")
             (Some (str "news")) seeded_world).
    left. str_neq.
  - apply (home_searches_only_with_input ∅ whole_value_match (str "title2")
             (Some (str "news")) seeded_world).
    + left. str_neq.
    + right. right. exists (str "news"). split; [reflexivity | by_evaluation].
Defined.

(** C6.  With [q] empty and [content_type] empty, the JSON endpoint still
    sends a search request, with the [match_all] query and size 25, and
    answers with the [{title, snippet}] objects of the first 25 searchable
    documents, in index order: all of them when there are at most 25, and
    never the empty list unless the index holds no searchable document. *)
Theorem api_search_empty_input_match_all (environ : gmap pystr pystr)
    (am : pystr → pystr → bool) (content_type : option pystr) (w : world)
    (idx : index) (docs : list (Z * (pystr * pystr * pystr))) :
  content_type = None ∨ content_type = Some [] →
  indices w !! INDEX_NAME environ = Some idx →
  searchable idx = stored_document <$> docs →
  api_search environ am [] content_type w
  = (Ok (expected_object <$> take 25 docs),
     add_request
       (ReqSearch (INDEX_NAME environ)
          {| sb_query := MatchAll;
             sb_source := [str "title"; str "content"];
             sb_size := 25 |}) w)
  ∧ (length docs ≤ 25 → take 25 docs = docs)
  ∧ (docs ≠ [] → expected_object <$> take 25 docs ≠ []).
Proof.
  intros Hct Hidx Hdocs. split_and!.
  - rewrite api_search_eq, do_search_passes; cycle 1.
    { left. by destruct Hct as [-> | ->]. }
    assert (must_clauses [] content_type = []) as ->.
    { by destruct Hct as [-> | ->]. }
    rewrite run_query_eq, Hidx.
    change (request_body []) with (SearchBody MatchAll [str "title"; str "content"] 25).
    unfold run_search. cbn [sb_query sb_source sb_size].
    rewrite filter_match_all, Hdocs, <-!fmap_take, formatted_all_documents.
    cbn [map_result]. by rewrite <-list_fmap_compose.
  - apply take_ge.
  - destruct docs; [done|]. by intros _.
Qed.

Lemma api_search_empty_input_match_all_witness :
  (api_search ∅ whole_value_match (str "") (Some (str "")) seeded_world).1
  = Ok (expected_object <$> seed_documents).
Proof.
  destruct (api_search_empty_input_match_all ∅ whole_value_match (Some (str ""))
              seeded_world
              (Index (Some index_mapping)
                     (stored_document <$> seed_documents)
                     (stored_document <$> seed_documents))
              seed_documents) as (Heq & _ & _).
  - by right.
  - vm_compute. reflexivity.
  - reflexivity.
  - exact (f_equal fst Heq).
Defined.

(** C7 (amended).  When [q] or [content_type] is non-empty, the JSON
    endpoint answers with the objects of exactly the results that the HTML
    endpoint renders for the same parameters in the same world, and both
    leave the same world behind. *)
Theorem api_search_agrees_with_home_on_input (environ : gmap pystr pystr)
    (am : pystr → pystr → bool) (q : pystr) (content_type : option pystr)
    (w : world) :
  q ≠ [] ∨ (∃ ct, content_type = Some ct ∧ ct ≠ []) →
  (api_search environ am q content_type w).1
  = map_result (λ ctx, model_dump <$> ctx_results ctx)
      (home environ am q content_type w).1
  ∧ (api_search environ am q content_type w).2
    = (home environ am q content_type w).2.
Proof.
  intros Hinput. rewrite api_search_eq, home_eq.
  assert (truthy q || truthy_opt content_type = true) as ->.
  { destruct Hinput as [Hq%truthy_nonempty | (ct & -> & Hct%truthy_nonempty)]; simpl.
    - by rewrite Hq.
    - rewrite Hct. by destruct (truthy q). }
  by destruct (do_search environ am q content_type w) as [[items|e] w'].
Qed.

Lemma api_search_agrees_with_home_on_input_witness :
  (api_search ∅ whole_value_match (str "content3") None seeded_world).1
  = map_result (λ ctx, model_dump <$> ctx_results ctx)
      (home ∅ whole_value_match (str "content3") None seeded_world).1
  ∧ (api_search ∅ whole_value_match (str "content3") None seeded_world).2
    = (home ∅ whole_value_match (str "content3") None seeded_world).2.
Proof.
  apply api_search_agrees_with_home_on_input. left. str_neq.
Defined.

(** With both parameters empty the two endpoints differ on the seeded
    index: the JSON endpoint answers with the five documents, the HTML
    endpoint renders no result. *)
Lemma api_search_differs_from_home_without_input :
  (api_search ∅ whole_value_match (str "") None seeded_world).1
  = Ok (expected_object <$> seed_documents)
  ∧ map_result (λ ctx, model_dump <$> ctx_results ctx)
      (home ∅ whole_value_match (str "") None seeded_world).1
    = Ok []
  ∧ (api_search ∅ whole_value_match (str "") None seeded_world).1
    ≠ map_result (λ ctx, model_dump <$> ctx_results ctx)
        (home ∅ whole_value_match (str "") None seeded_world).1.
Proof.
  assert (Hapi : (api_search ∅ whole_value_match (str "") None seeded_world).1
                 = Ok (expected_object <$> seed_documents))
    by (vm_compute; reflexivity).
  assert (Hhome : map_result (λ ctx, model_dump <$> ctx_results ctx)
                    (home ∅ whole_value_match (str "") None seeded_world).1
                  = Ok []) by reflexivity.
  split_and!; [done..|].
  rewrite Hapi, Hhome. intros Heq. vm_compute in Heq. discriminate Heq.
Qed.

(** ** Seeding *)

Lemma index_doc_found (name : pystr) (id : Z) (doc : object) (idx : index) (w : world) :
  indices w !! name = Some idx →
  index_doc name id doc false w
  = (Ok tt,
     set_indices
       <[name := Index (idx_body idx) (put_doc id doc (stored idx)) (searchable idx)]>
       (add_request (ReqIndex name id doc false) w)).
Proof. intros Hidx. unfold index_doc, bind. simpl. by rewrite Hidx. Qed.

Lemma put_doc_nonempty (id : Z) (doc : object) (docs : list (Z * object)) :
  put_doc id doc docs ≠ [].
Proof. unfold put_doc. by destruct (filter _ docs). Qed.

Lemma index_all_nonempty (docs old : list (Z * object)) :
  old ≠ [] ∨ docs ≠ [] → index_all docs old ≠ [].
Proof.
  revert old. induction docs as [|d docs IH]; intros old Hne.
  - by destruct Hne.
  - apply IH. left. apply put_doc_nonempty.
Qed.

Lemma enumerate_seed_nonempty : enumerate seed ≠ [].
Proof. str_neq. Qed.

Lemma index_all_seed_fresh :
  index_all (enumerate seed) [] = stored_document <$> seed_documents.
Proof. vm_compute. reflexivity. Qed.

(** The loop of [seed_docs], on an index that exists. *)
Lemma for_each_index_doc (name : pystr) (docs : list (Z * object)) :
  ∀ (w : world) (idx : index),
    indices w !! name = Some idx →
    for_each docs (λ '(i, doc), index_doc name (i + 1)%Z doc false) w
    = (Ok tt,
       World (<[name := Index (idx_body idx) (index_all docs (stored idx))
                          (searchable idx)]> (indices w))
             (requests w ++ ((λ r, (clock w, r)) <$> index_requests name docs))
             (clock w) (health_script w)).
Proof.
  induction docs as [|[i doc] docs IH]; intros w idx Hidx.
  - simpl. rewrite app_nil_r. destruct idx, w; simpl in *.
    by rewrite insert_id.
  - cbn [for_each].
    rewrite (bind_ok _ _ _ _ _ (index_doc_found name (i + 1) doc idx w Hidx)).
    rewrite (IH _ (Index (idx_body idx) (put_doc (i + 1) doc (stored idx))
                         (searchable idx)))
      by (simpl; apply lookup_insert_eq).
    simpl. rewrite insert_insert_eq. by rewrite <-app_assoc.
Qed.

Section Seeding.

Variable environ : gmap pystr pystr.

Local Abbreviation name := (INDEX_NAME environ).

Lemma seed_docs_nonempty (w : world) (idx : index) :
  indices w !! name = Some idx →
  searchable idx ≠ [] →
  seed_docs environ w = (Ok tt, add_request (ReqCount name) w).
Proof.
  intros Hidx Hne. unfold seed_docs.
  rewrite (bind_ok _ _ _ _ _ (count_found _ idx w Hidx)).
  by destruct (searchable idx).
Qed.

Lemma seed_docs_empty (w : world) (idx : index) :
  indices w !! name = Some idx →
  searchable idx = [] →
  seed_docs environ w
  = (Ok tt,
     World (<[name := seeded idx]> (indices w))
           (requests w
            ++ ((λ r, (clock w, r))
                  <$> ReqCount name
                      :: index_requests name (enumerate seed) ++ [ReqRefresh name]))
           (clock w) (health_script w)).
Proof.
  intros Hidx Hempty. unfold seed_docs, seeded.
  rewrite (bind_ok _ _ _ _ _ (count_found _ idx w Hidx)).
  rewrite Hempty. cbn [length Nat.ltb Nat.leb].
  erewrite bind_ok; [|by apply (for_each_index_doc _ _ _ idx)].
  erewrite indices_refresh_found by (simpl; apply lookup_insert_eq).
  unfold set_indices, add_request.
  cbn [indices requests clock health_script idx_body stored searchable].
  rewrite insert_insert_eq.
  by rewrite fmap_cons, fmap_app, <-!app_assoc.
Qed.

Lemma seeded_searchable (idx : index) : searchable (seeded idx) ≠ [].
Proof.
  unfold seeded. destruct (searchable idx) eqn:Hs; cbn [searchable].
  - apply index_all_nonempty. right. apply enumerate_seed_nonempty.
  - by rewrite Hs.
Qed.

Lemma seeded_idempotent (idx : index) : seeded (seeded idx) = seeded idx.
Proof.
  pose proof (seeded_searchable idx) as Hne.
  unfold seeded at 1. by destruct (searchable (seeded idx)).
Qed.

(** [ensure_index] followed by [seed_docs] always succeeds. *)
Lemma provision_and_seed (w : world) :
  ∃ w', (ensure_index environ ;; seed_docs environ) w = (Ok tt, w')
        ∧ indices w' = <[name := seeded (provisioned (indices w !! name))]> (indices w).
Proof.
  destruct (indices w !! name) as [idx|] eqn:Hidx; simpl.
  - rewrite (bind_ok _ _ _ _ _ (ensure_index_present environ w (mk_is_Some _ _ Hidx))).
    destruct (searchable idx) as [|d docs] eqn:Hs.
    + rewrite (seed_docs_empty _ idx) by done. eauto.
    + rewrite (seed_docs_nonempty _ idx) by (by rewrite ?Hs).
      eexists. split; [done|]. simpl. unfold seeded. rewrite Hs.
      by rewrite insert_id.
  - rewrite (bind_ok _ _ _ _ _ (ensure_index_absent environ w Hidx)).
    rewrite (seed_docs_empty _ (Index (Some index_mapping) [] []))
      by (done || simpl; apply lookup_insert_eq).
    eexists. split; [done|]. simpl. by rewrite insert_insert_eq.
Qed.

End Seeding.

(** ** Waiting for the engine *)

Lemma wait_loop_step (fuel start timeout_sec : nat) (w : world) :
  wait_loop (S fuel) start timeout_sec w
  = if bool_decide (clock w - start < timeout_sec) then
      match health_script w with
      | [] =>
          wait_loop fuel start timeout_sec
            (set_clock (λ t, t + 2) (add_request ReqHealth w))
      | r :: rest =>
          let w' := set_clock (λ t, t + latency r)
                      (set_health_script rest (add_request ReqHealth w)) in
          match outcome r with
          | HealthRaises =>
              wait_loop fuel start timeout_sec (set_clock (λ t, t + 2) w')
          | HealthReturns h =>
              if health_ok h then (Ok true, w')
              else wait_loop fuel start timeout_sec w'
          end
      end
    else (Raised timeout_error, w).
Proof.
  cbn [wait_loop]. unfold bind at 1, time_time at 1.
  case_bool_decide; [|done].
  unfold bind at 1, try_catch, cluster_health, bind at 1, send.
  cbn [health_script add_request].
  destruct (health_script w) as [|[lat [|h]] rest]; cbn [outcome latency]; try done.
  by destruct (health_ok h).
Qed.

(** Waiting changes the clock, the script and the log, never the indices. *)
Lemma wait_loop_indices (fuel start timeout_sec : nat) :
  ∀ w, indices (wait_loop fuel start timeout_sec w).2 = indices w.
Proof.
  induction fuel as [|fuel IH]; intros w; [done|].
  rewrite wait_loop_step. case_bool_decide; [|done].
  destruct (health_script w) as [|[lat [|h]] rest]; cbn [outcome latency].
  - by rewrite IH.
  - by rewrite IH.
  - destruct (health_ok h); [done|]. by rewrite IH.
Qed.

(** The loop ends within the fuel that [wait_for_opensearch] gives it: it
    returns [True] or raises the timeout error. *)
Lemma wait_loop_fuel (fuel start timeout_sec : nat) :
  ∀ w,
    start ≤ clock w →
    length (health_script w) + (timeout_sec - (clock w - start)) < fuel →
    (wait_loop fuel start timeout_sec w).1 = Ok true
    ∨ (wait_loop fuel start timeout_sec w).1 = Raised timeout_error.
Proof.
  induction fuel as [|fuel IH]; intros w Hstart Hfuel; [lia|].
  rewrite wait_loop_step. case_bool_decide as Hnow; [|by right].
  destruct (health_script w) as [|[lat [|h]] rest] eqn:Hscript;
    cbn [outcome latency]; simpl in Hfuel.
  - apply IH; simpl; [lia|]. rewrite Hscript. simpl. lia.
  - apply IH; simpl; lia.
  - destruct (health_ok h); [by left|]. apply IH; simpl; lia.
Qed.

(** It returns only on a healthy answer. *)
Lemma wait_loop_ok (fuel start timeout_sec : nat) :
  ∀ w b,
    (wait_loop fuel start timeout_sec w).1 = Ok b →
    b = true ∧ ∃ r, r ∈ health_script w ∧ healthy r.
Proof.
  induction fuel as [|fuel IH]; intros w b; [done|].
  rewrite wait_loop_step. case_bool_decide; [|done].
  destruct (health_script w) as [|[lat [|h]] rest] eqn:Hscript;
    cbn [outcome latency].
  - intros (-> & r & Hr & _)%IH. simpl in Hr. rewrite Hscript in Hr.
    by apply elem_of_nil in Hr.
  - intros (-> & r & Hr & Hh)%IH. split; [done|].
    exists r. split; [|done]. by apply list_elem_of_further.
  - destruct (health_ok h) eqn:Hh.
    + intros [= <-]. split; [done|].
      exists (HealthReply lat (HealthReturns h)). split; [apply list_elem_of_here|].
      by exists h.
    + intros (-> & r & Hr & Hr')%IH. split; [done|].
      exists r. split; [|done]. by apply list_elem_of_further.
Qed.

Lemma wait_for_opensearch_indices (timeout_sec : nat) (w : world) :
  indices (wait_for_opensearch timeout_sec w).2 = indices w.
Proof. apply wait_loop_indices. Qed.

(** [wait_for_opensearch] is total: it returns [True], which takes a
    healthy answer, or it raises the timeout error. *)
Lemma wait_for_opensearch_total (timeout_sec : nat) (w : world) :
  ((wait_for_opensearch timeout_sec w).1 = Ok true
   ∧ ∃ r, r ∈ health_script w ∧ healthy r)
  ∨ (wait_for_opensearch timeout_sec w).1 = Raised timeout_error.
Proof.
  destruct (wait_loop_fuel (wait_fuel timeout_sec w) (clock w) timeout_sec w)
    as [Hok | Hraise]; [done | unfold wait_fuel; lia | | by right].
  left. split; [done|]. by apply wait_loop_ok in Hok as [_ ?].
Qed.

(** While the engine refuses the connection, the polls are two time units
    apart; a healthy answer within the timeout ends the wait at once. *)
Lemma wait_loop_refused_then_healthy (k : nat) :
  ∀ (fuel start timeout_sec : nat) (w : world) (r : health_reply)
    (rest : list health_reply),
    health_script w = replicate k refused ++ r :: rest →
    healthy r →
    k < fuel →
    clock w + 2 * k - start < timeout_sec →
    (wait_loop fuel start timeout_sec w).1 = Ok true
    ∧ clock (wait_loop fuel start timeout_sec w).2 = clock w + 2 * k + latency r
    ∧ health_poll_times (requests (wait_loop fuel start timeout_sec w).2)
      = health_poll_times (requests w)
        ++ ((λ i, clock w + 2 * i) <$> seq 0 (S k)).
Proof.
  induction k as [|k IH]; intros fuel start timeout_sec w r rest Hscript Hr Hfuel Hnow.
  - destruct fuel as [|fuel]; [lia|].
    rewrite wait_loop_step, bool_decide_true by lia.
    simpl in Hscript. rewrite Hscript.
    destruct Hr as (h & Hout & Hok). cbn zeta. rewrite Hout, Hok.
    cbn [fst snd]. split_and!; [done | simpl; lia |].
    unfold health_poll_times. simpl. rewrite omap_app. simpl.
    do 2 f_equal. lia.
  - destruct fuel as [|fuel]; [lia|].
    rewrite wait_loop_step, bool_decide_true by lia.
    simpl in Hscript. rewrite Hscript. cbn [outcome refused latency].
    set (w' := set_clock (λ t, t + 2) _).
    destruct (IH fuel start timeout_sec w' r rest) as (Hok & Hclock & Htimes);
      [done | done | lia | simpl; lia |].
    split_and!; [done | rewrite Hclock; simpl; lia |].
    rewrite Htimes. unfold health_poll_times. simpl. rewrite omap_app. simpl.
    rewrite <-app_assoc. f_equal. simpl. f_equal; [lia|]. f_equal; [lia|].
    rewrite <-!fmap_S_seq, <-!list_fmap_compose.
    apply list_fmap_ext. intros ? i ?. simpl. lia.
Qed.

(** C8.  The loop sleeps its two time units only after a poll that
    raised.  Three refused connections followed by a green answer give
    polls at times 0, 2, 4 and 6, the fixed interval of the
    specification.  Three answers that
    return without a status are polled again without any pause: all four
    polls happen at time 0.  When such answers take one time unit each and
    never turn healthy, the loop polls 60 times, once per time unit, before
    it raises the timeout error at time 60. *)
Theorem wait_for_opensearch_polls_without_pause :
  (let w := World ∅ [] 0 (replicate 3 refused ++ [green]) in
   (wait_for_opensearch 60 w).1 = Ok true
   ∧ health_poll_times (requests (wait_for_opensearch 60 w).2) = [0; 2; 4; 6])
  ∧ (let w := World ∅ [] 0 (replicate 3 no_status ++ [green]) in
     (wait_for_opensearch 60 w).1 = Ok true
     ∧ health_poll_times (requests (wait_for_opensearch 60 w).2) = [0; 0; 0; 0])
  ∧ (let w := World ∅ [] 0 (replicate 60 (HealthReply 1 (HealthReturns None))) in
     (wait_for_opensearch 60 w).1 = Raised timeout_error
     ∧ health_poll_times (requests (wait_for_opensearch 60 w).2) = seq 0 60
     ∧ clock (wait_for_opensearch 60 w).2 = 60).
Proof. repeat split; vm_compute; reflexivity. Qed.

(** An engine that never answers: 30 polls, two time units apart, then the
    timeout error at time 60. *)
Example wait_for_opensearch_unreachable :
  let w := World ∅ [] 0 [] in
  (wait_for_opensearch 60 w).1 = Raised timeout_error
  ∧ health_poll_times (requests (wait_for_opensearch 60 w).2)
    = (λ i, 2 * i) <$> seq 0 30
  ∧ clock (wait_for_opensearch 60 w).2 = 60.
Proof. repeat split; vm_compute; reflexivity. Qed.

(** ** Startup *)

Section Startup.

Variable environ : gmap pystr pystr.

Local Abbreviation name := (INDEX_NAME environ).

(** When the wait fails, [startup] fails with it and provisions nothing. *)
Lemma startup_raises (w : world) (e : exn) :
  (wait_for_opensearch 60 w).1 = Raised e →
  startup environ w = (Raised e, (wait_for_opensearch 60 w).2).
Proof.
  intros Hwait. unfold startup, bind at 1.
  destruct (wait_for_opensearch 60 w) as [[b|e'] wa]; simpl in Hwait; [done|].
  by injection Hwait as ->.
Qed.

Lemma startup_ok (w : world) (b : bool) :
  (wait_for_opensearch 60 w).1 = Ok b →
  ∃ w1, startup environ w = (Ok tt, w1)
        ∧ indices w1 = <[name := seeded (provisioned (indices w !! name))]> (indices w).
Proof.
  intros Hwait. unfold startup, bind at 1.
  pose proof (wait_for_opensearch_indices 60 w) as Hindices.
  destruct (wait_for_opensearch 60 w) as [[b'|e'] wa]; simpl in Hwait, Hindices; [|done].
  destruct (provision_and_seed environ wa) as (w1 & Hrun & Hw1).
  exists w1. split; [done|]. by rewrite Hw1, Hindices.
Qed.

Lemma count_ok_inv (w : world) (n : nat) :
  (count name w).1 = Ok n →
  ∃ idx, indices w !! name = Some idx ∧ length (searchable idx) = n.
Proof.
  unfold count, bind. simpl.
  destruct (indices w !! name) as [idx|]; [|done].
  intros [= <-]. eauto.
Qed.

End Startup.

Lemma index_requests_seed (name : pystr) :
  index_requests name (enumerate seed)
  = (λ d, ReqIndex name d.1 d.2 false) <$> (stored_document <$> seed_documents).
Proof. vm_compute. reflexivity. Qed.

(** C2.  When the count of the index is zero, [seed_docs] sends the five
    seed documents under the ids 1 to 5 and then one refresh, after which
    they are the searchable documents; when the count is not zero it sends
    nothing but the count request and leaves every index as it is.  Hence
    a second [startup] changes no index, and two startups in succession
    on an index without documents leave exactly the five seed documents. *)
Theorem seed_docs_idempotent (environ : gmap pystr pystr) (w : world) :
  let name := INDEX_NAME environ in
  ((count name w).1 = Ok 0 →
     ∃ idx, indices w !! name = Some idx
       ∧ (seed_docs environ w).1 = Ok tt
       ∧ requests (seed_docs environ w).2
         = requests w
           ++ ((λ r, (clock w, r))
                 <$> ReqCount name
                     :: ((λ d, ReqIndex name d.1 d.2 false)
                           <$> (stored_document <$> seed_documents))
                     ++ [ReqRefresh name])
       ∧ indices (seed_docs environ w).2
         = <[name := Index (idx_body idx)
                       (index_all (enumerate seed) (stored idx))
                       (index_all (enumerate seed) (stored idx))]> (indices w)
       ∧ (stored idx = [] →
          index_all (enumerate seed) (stored idx)
          = stored_document <$> seed_documents))
  ∧ (∀ n, (count name w).1 = Ok n → n ≠ 0 →
       seed_docs environ w = (Ok tt, add_request (ReqCount name) w)
       ∧ indices (seed_docs environ w).2 = indices w)
  ∧ ((wait_for_opensearch 60 w).1 = Ok true →
     (wait_for_opensearch 60 (startup environ w).2).1 = Ok true →
     let w1 := (startup environ w).2 in
     let w2 := (startup environ w1).2 in
     (startup environ w).1 = Ok tt
     ∧ (startup environ w1).1 = Ok tt
     ∧ indices w2 = indices w1
     ∧ (no_documents (indices w !! name) →
        ∃ body,
          indices w2 !! name
          = Some (Index body (stored_document <$> seed_documents)
                        (stored_document <$> seed_documents))
          ∧ length (stored_document <$> seed_documents) = 5)).
Proof.
  cbv zeta. split_and!.
  - intros (idx & Hidx & Hlen)%count_ok_inv.
    apply nil_length_inv in Hlen.
    exists idx. rewrite (seed_docs_empty environ w idx Hidx Hlen).
    cbn [fst snd indices requests]. unfold seeded. rewrite Hlen.
    split_and!; [done | done | by rewrite index_requests_seed | done |].
    intros ->. apply index_all_seed_fresh.
  - intros n (idx & Hidx & Hlen)%count_ok_inv Hn.
    rewrite (seed_docs_nonempty environ w idx Hidx); [done|].
    intros Hnil. rewrite Hnil in Hlen. simpl in Hlen. lia.
  - intros Hwait1 Hwait2.
    destruct (startup_ok environ w true Hwait1) as (w1 & Hrun1 & Hw1).
    rewrite Hrun1 in Hwait2 |- *. cbn [fst snd] in Hwait2 |- *.
    destruct (startup_ok environ w1 true Hwait2) as (w2 & Hrun2 & Hw2).
    rewrite Hrun2. cbn [fst snd].
    assert (Hsame : indices w2 = indices w1).
    { rewrite Hw2, Hw1, lookup_insert_eq.
      change (provisioned (Some ?x)) with x.
      by rewrite seeded_idempotent, insert_insert_eq. }
    split_and!; [done..|].
    intros Hfresh. rewrite Hsame, Hw1, lookup_insert_eq.
    destruct Hfresh as [-> | (body & ->)]; unfold seeded; cbn.
    + exists (Some index_mapping). by rewrite index_all_seed_fresh.
    + exists body. by rewrite index_all_seed_fresh.
Qed.

Lemma seed_docs_idempotent_witness :
  (startup ∅ (startup ∅ fresh_world).2).1 = Ok tt
  ∧ indices (startup ∅ (startup ∅ fresh_world).2).2 = indices (startup ∅ fresh_world).2
  ∧ (∃ body,
       indices (startup ∅ (startup ∅ fresh_world).2).2 !! INDEX_NAME ∅
       = Some (Index body (stored_document <$> seed_documents)
                     (stored_document <$> seed_documents)))
  ∧ indices (seed_docs ∅ (ensure_index ∅ fresh_world).2).2
    = indices (startup ∅ fresh_world).2
  ∧ seed_docs ∅ seeded_world
    = (Ok tt, add_request (ReqCount (INDEX_NAME ∅)) seeded_world).
Proof.
  destruct (seed_docs_idempotent ∅ fresh_world) as (_ & _ & Htwice).
  destruct Htwice as (_ & Hok & Hsame & Hfive);
    [vm_compute; reflexivity | vm_compute; reflexivity |].
  destruct Hfive as (body & Hdocs & _); [left; vm_compute; reflexivity|].
  destruct (seed_docs_idempotent ∅ (ensure_index ∅ fresh_world).2) as (Hzero & _ & _).
  destruct Hzero as (idx & Hidx & _ & _ & Hindices & _); [vm_compute; reflexivity|].
  destruct (seed_docs_idempotent ∅ seeded_world) as (_ & Hnonzero & _).
  destruct (Hnonzero 5) as [Hskip _]; [vm_compute; reflexivity | lia |].
  split_and!; [done | done | by exists body | | done].
  assert (idx = Index (Some index_mapping) [] []) as ->
    by (vm_compute in Hidx; injection Hidx as <-; reflexivity).
  rewrite Hindices. vm_compute. reflexivity.
Defined.

(** ** The statements at sample inputs *)

Lemma content_types_split_strip_filter_witness :
  CONTENT_TYPES (<[(str "CONTENT_TYPES") := str " blog , ,news,, "]> ∅)
  = [str "blog"; str "news"]
  ∧ CONTENT_TYPES ∅ = [str "article"; str "news"; str "blog"; str "report"]
  ∧ (head (str "news") = Some 110%N → isspace 110 = false).
Proof.
  destruct (content_types_split_strip_filter ∅) as (Hset & Hunset & _ & Hends).
  split_and!.
  - rewrite Hset. vm_compute. reflexivity.
  - rewrite Hunset by (vm_compute; reflexivity). vm_compute. reflexivity.
  - apply (Hends (str "news") 110%N). by_evaluation.
Defined.

Lemma ensure_index_creates_once_witness :
  indices (ensure_index ∅ fresh_world).2
  = <[INDEX_NAME ∅ := Index (Some index_mapping) [] []]> (indices fresh_world)
  ∧ creations (INDEX_NAME ∅) (requests (ensure_index ∅ fresh_world).2)
    = [index_mapping]
  ∧ ensure_index ∅ seeded_world
    = (Ok tt, add_request (ReqExists (INDEX_NAME ∅)) seeded_world).
Proof.
  destruct (ensure_index_creates_once ∅ fresh_world) as (_ & Habsent & _ & _).
  destruct Habsent as (_ & Hindices & Hcreated); [vm_compute; reflexivity|].
  destruct (ensure_index_creates_once ∅ seeded_world) as (Hpresent & _ & _ & _).
  destruct Hpresent as (Hrun & _ & _).
  { apply (bool_decide_unpack _). vm_compute. exact I. }
  split_and!; [done | | done].
  rewrite Hcreated. vm_compute. reflexivity.
Defined.

Lemma format_hit_title_snippet_witness :
  format_hit (Hit 7 {[ str "content" := JStr sixty_characters ]}) fresh_world
  = (Ok {| title := str "";
           snippet := str "abcdefghijklmnopqrstuvwxyzABCDEFGHIJKLMNOPQRSTUVWX" |},
     fresh_world)
  ∧ format_hit (Hit 8 (document (str "title8") ten_characters (str "blog"))) fresh_world
    = (Ok {| title := str "title8"; snippet := ten_characters |}, fresh_world).
Proof.
  destruct (format_hit_title_snippet
              (Hit 7 {[ str "content" := JStr sixty_characters ]})
              (str "") sixty_characters fresh_world) as (Hlong & _ & _ & _).
  { right. split; vm_compute; reflexivity. }
  { left. vm_compute. reflexivity. }
  destruct (format_hit_title_snippet
              (Hit 8 (document (str "title8") ten_characters (str "blog")))
              (str "title8") ten_characters fresh_world) as (Hshort & _ & _ & Hfull).
  { left. apply document_title. }
  { left. apply document_content. }
  split.
  - exact Hlong.
  - rewrite Hshort, Hfull; [reflexivity | vm_compute; lia].
Defined.

(** * Further properties *)

(** ** The wait loop *)

(** What the loop does to the world: it appends health requests to the
    log, consumes scripted answers from the front, and lets time pass. *)
Lemma wait_loop_effects (fuel start timeout_sec : nat) :
  ∀ w,
    ∃ sent,
      requests (wait_loop fuel start timeout_sec w).2 = requests w ++ sent
      ∧ Forall (λ entry, entry.2 = ReqHealth) sent
      ∧ health_script (wait_loop fuel start timeout_sec w).2
          `suffix_of` health_script w
      ∧ clock w ≤ clock (wait_loop fuel start timeout_sec w).2.
Proof.
  induction fuel as [|fuel IH]; intros w.
  { exists []. by rewrite app_nil_r. }
  rewrite wait_loop_step. case_bool_decide.
  2: { exists []. by rewrite app_nil_r. }
  destruct (health_script w) as [|[lat [|h]] rest] eqn:Hscript;
    cbn [outcome latency].
  - destruct (IH (set_clock (λ t, t + 2) (add_request ReqHealth w)))
      as (sent & Hlog & Hsent & Hsuffix & Hclock).
    exists ((clock w, ReqHealth) :: sent).
    rewrite Hlog. simpl in *. rewrite Hscript in Hsuffix.
    split_and!; [by rewrite <-app_assoc | by constructor | done | lia].
  - match goal with |- context [wait_loop fuel _ _ ?v] => destruct (IH v)
      as (sent & Hlog & Hsent & Hsuffix & Hclock) end.
    exists ((clock w, ReqHealth) :: sent).
    rewrite Hlog. simpl in *.
    split_and!; [by rewrite <-app_assoc | by constructor
                | by apply suffix_cons_r | lia].
  - destruct (health_ok h).
    + exists [(clock w, ReqHealth)]. simpl.
      split_and!; [done | by repeat constructor
                  | by apply suffix_cons_r | lia].
    + match goal with |- context [wait_loop fuel _ _ ?v] => destruct (IH v)
        as (sent & Hlog & Hsent & Hsuffix & Hclock) end.
      exists ((clock w, ReqHealth) :: sent).
      rewrite Hlog. simpl in *.
      split_and!; [by rewrite <-app_assoc | by constructor
                  | by apply suffix_cons_r | lia].
Qed.

(** The timeout error is raised with the timeout elapsed, never before. *)
Lemma wait_loop_timeout_late (fuel start timeout_sec : nat) :
  ∀ w,
    start ≤ clock w →
    (wait_loop fuel start timeout_sec w).1 = Raised timeout_error →
    timeout_sec ≤ clock (wait_loop fuel start timeout_sec w).2 - start.
Proof.
  induction fuel as [|fuel IH]; intros w Hstart; [done|].
  rewrite wait_loop_step. case_bool_decide as Hnow; [|simpl; lia].
  destruct (health_script w) as [|[lat [|h]] rest]; cbn [outcome latency].
  - apply IH. simpl. lia.
  - apply IH. simpl. lia.
  - destruct (health_ok h); [done|]. apply IH. simpl. lia.
Qed.

(** An engine that refuses every connection at once is polled every two
    time units until the timeout has elapsed. *)
Lemma wait_loop_unreachable (fuel start timeout_sec : nat) :
  ∀ w,
    Forall (λ r, r = refused) (health_script w) →
    start ≤ clock w →
    timeout_sec - (clock w - start) + 2 ≤ 2 * fuel →
    ∃ n,
      (wait_loop fuel start timeout_sec w).1 = Raised timeout_error
      ∧ clock (wait_loop fuel start timeout_sec w).2 = clock w + 2 * n
      ∧ health_poll_times (requests (wait_loop fuel start timeout_sec w).2)
        = health_poll_times (requests w) ++ ((λ i, clock w + 2 * i) <$> seq 0 n)
      ∧ timeout_sec - (clock w - start) ≤ 2 * n
      ∧ 2 * n < timeout_sec - (clock w - start) + 2.
Proof.
  induction fuel as [|fuel IH]; intros w Hscript Hstart Hfuel; [lia|].
  rewrite wait_loop_step. case_bool_decide as Hnow.
  2: { exists 0. simpl. rewrite app_nil_r. split_and!; [done | lia | done | lia | lia]. }
  assert (Hnext : ∀ w1,
            Forall (λ r, r = refused) (health_script w1) →
            clock w1 = clock w + 2 →
            health_poll_times (requests w1)
            = health_poll_times (requests w) ++ [clock w] →
            ∃ n,
              (wait_loop fuel start timeout_sec w1).1 = Raised timeout_error
              ∧ clock (wait_loop fuel start timeout_sec w1).2 = clock w + 2 * n
              ∧ health_poll_times (requests (wait_loop fuel start timeout_sec w1).2)
                = health_poll_times (requests w)
                  ++ ((λ i, clock w + 2 * i) <$> seq 0 n)
              ∧ timeout_sec - (clock w - start) ≤ 2 * n
              ∧ 2 * n < timeout_sec - (clock w - start) + 2).
  { intros w1 Hscript1 Hclock1 Hlog1.
    destruct (IH w1) as (n & Hres & Hclock & Htimes & Hlow & Hhigh);
      [done | lia | lia |].
    exists (S n). split_and!; [done | lia | | lia | lia].
    rewrite Htimes, Hlog1, <-app_assoc. f_equal. simpl.
    f_equal; [lia|]. rewrite <-fmap_S_seq, <-list_fmap_compose.
    apply list_fmap_ext. intros ? i ?. simpl. lia. }
  destruct (health_script w) as [|r rest] eqn:Hs.
  - apply Hnext; simpl.
    + by rewrite Hs.
    + done.
    + unfold health_poll_times. by rewrite omap_app.
  - apply Forall_cons in Hscript as [-> Hrest]. cbn [outcome refused latency].
    apply Hnext; simpl.
    + done.
    + lia.
    + unfold health_poll_times. by rewrite omap_app.
Qed.

(** X1.  [wait_for_opensearch] always ends, and in one of two ways: it
    returns [True], and then one of the answers of the engine carried a
    non-empty status; or it raises the [RuntimeError] of the timeout.  It
    never returns [False] and lets no other exception out. *)
Theorem wait_for_opensearch_true_or_timeout (timeout_sec : nat) (w : world) :
  ((wait_for_opensearch timeout_sec w).1 = Ok true
   ∧ ∃ r status,
       r ∈ health_script w
       ∧ outcome r = HealthReturns (Some (Some status))
       ∧ status ≠ [])
  ∨ (wait_for_opensearch timeout_sec w).1
    = Raised (RuntimeError (str "OpenSearch not available")).
Proof.
  destruct (wait_for_opensearch_total timeout_sec w)
    as [(Hok & r & Hr & h & Hout & Hh) | Hraise]; [left | by right].
  split; [done|]. destruct h as [[status|]|]; try done.
  exists r, status. by apply truthy_nonempty in Hh.
Qed.

(** X2.  While the engine refuses the connection the loop sleeps two time
    units after each poll: with [k] refusals before the first answer that
    carries a status, and [2 * k] below the timeout, the polls are sent at
    [t, t + 2, ..., t + 2 * k] and the function returns [True] when that
    last call returns, however long the call takes. *)
Theorem wait_for_opensearch_retries_every_two (timeout_sec k : nat) (w : world)
    (r : health_reply) (rest : list health_reply) :
  health_script w = replicate k refused ++ r :: rest →
  healthy r →
  2 * k < timeout_sec →
  (wait_for_opensearch timeout_sec w).1 = Ok true
  ∧ clock (wait_for_opensearch timeout_sec w).2 = clock w + 2 * k + latency r
  ∧ health_poll_times (requests (wait_for_opensearch timeout_sec w).2)
    = health_poll_times (requests w) ++ ((λ i, clock w + 2 * i) <$> seq 0 (S k)).
Proof.
  intros Hscript Hr Hk.
  apply (wait_loop_refused_then_healthy k _ _ _ w r rest); [done | done | | lia].
  unfold wait_fuel. rewrite Hscript, length_app, length_replicate. simpl. lia.
Qed.

Lemma wait_for_opensearch_retries_every_two_witness :
  (wait_for_opensearch 60
     (World ∅ [] 10 [refused; refused; HealthReply 7 (HealthReturns (Some (Some (str "red"))))])).1
  = Ok true
  ∧ clock (wait_for_opensearch 60
             (World ∅ [] 10 [refused; refused;
                             HealthReply 7 (HealthReturns (Some (Some (str "red"))))])).2
    = 10 + 2 * 2 + 7
  ∧ health_poll_times
      (requests (wait_for_opensearch 60
                   (World ∅ [] 10 [refused; refused;
                                   HealthReply 7 (HealthReturns (Some (Some (str "red"))))])).2)
    = [] ++ ((λ i, 10 + 2 * i) <$> seq 0 3).
Proof.
  apply (wait_for_opensearch_retries_every_two 60 2
           (World ∅ [] 10 [refused; refused;
                           HealthReply 7 (HealthReturns (Some (Some (str "red"))))])
           (HealthReply 7 (HealthReturns (Some (Some (str "red"))))) []).
  - reflexivity.
  - exists (Some (Some (str "red"))). split; reflexivity.
  - lia.
Defined.

(** X3.  The timeout error is never raised early: when it is raised, at
    least [timeout_sec] time units have passed since the call.  With a
    timeout of zero it is raised at once, before any health request. *)
Theorem wait_for_opensearch_timeout_not_early (timeout_sec : nat) (w : world) :
  ((wait_for_opensearch timeout_sec w).1
   = Raised (RuntimeError (str "OpenSearch not available")) →
   timeout_sec ≤ clock (wait_for_opensearch timeout_sec w).2 - clock w)
  ∧ wait_for_opensearch 0 w
    = (Raised (RuntimeError (str "OpenSearch not available")), w).
Proof.
  split.
  - apply wait_loop_timeout_late. lia.
  - unfold wait_for_opensearch, wait_fuel. rewrite wait_loop_step.
    rewrite bool_decide_false by lia. done.
Qed.

Lemma wait_for_opensearch_timeout_not_early_witness :
  5 ≤ clock (wait_for_opensearch 5 (World ∅ [] 3 [no_status; refused])).2 - 3.
Proof.
  apply (wait_for_opensearch_timeout_not_early 5 (World ∅ [] 3 [no_status; refused])).
  vm_compute. reflexivity.
Defined.

(** X4.  An engine that refuses every connection at once is polled every
    two time units, [n] times in all, where [n] is half the timeout
    rounded up (30 for the default of 60); then the timeout error is
    raised, at time [t + 2 * n]. *)
Theorem wait_for_opensearch_unreachable_polls (timeout_sec : nat) (w : world) :
  Forall (λ r, r = refused) (health_script w) →
  ∃ n,
    timeout_sec ≤ 2 * n ∧ 2 * n < timeout_sec + 2
    ∧ (wait_for_opensearch timeout_sec w).1
      = Raised (RuntimeError (str "OpenSearch not available"))
    ∧ clock (wait_for_opensearch timeout_sec w).2 = clock w + 2 * n
    ∧ health_poll_times (requests (wait_for_opensearch timeout_sec w).2)
      = health_poll_times (requests w) ++ ((λ i, clock w + 2 * i) <$> seq 0 n).
Proof.
  intros Hscript.
  destruct (wait_loop_unreachable (wait_fuel timeout_sec w) (clock w) timeout_sec w)
    as (n & Hres & Hclock & Htimes & Hlow & Hhigh);
    [done | lia | unfold wait_fuel; lia |].
  exists n. split_and!; [lia | lia | done..].
Qed.

Lemma wait_for_opensearch_unreachable_polls_witness :
  ∃ n,
    7 ≤ 2 * n ∧ 2 * n < 7 + 2
    ∧ clock (wait_for_opensearch 7 (World ∅ [] 0 [refused])).2 = 0 + 2 * n.
Proof.
  destruct (wait_for_opensearch_unreachable_polls 7 (World ∅ [] 0 [refused]))
    as (n & Hlow & Hhigh & _ & Hclock & _).
  - repeat constructor.
  - exists n. done.
Defined.

Lemma wait_for_opensearch_only_polls_health_aux (timeout_sec : nat) (w : world) :
  ∃ sent,
    requests (wait_for_opensearch timeout_sec w).2 = requests w ++ sent
    ∧ Forall (λ entry, entry.2 = ReqHealth) sent
    ∧ indices (wait_for_opensearch timeout_sec w).2 = indices w
    ∧ clock w ≤ clock (wait_for_opensearch timeout_sec w).2.
Proof.
  destruct (wait_loop_effects (wait_fuel timeout_sec w) (clock w) timeout_sec w)
    as (sent & Hlog & Hsent & _ & Hclock).
  exists sent. split_and!; [done | done | | done].
  apply wait_for_opensearch_indices.
Qed.

(** X5.  Waiting only talks to the health endpoint: every request it adds
    to the log is a health request, the indices stay as they are, and time
    never runs backwards. *)
Theorem wait_for_opensearch_only_polls_health (timeout_sec : nat) (w : world) :
  ∃ sent,
    requests (wait_for_opensearch timeout_sec w).2 = requests w ++ sent
    ∧ Forall (λ entry, entry.2 = ReqHealth) sent
    ∧ indices (wait_for_opensearch timeout_sec w).2 = indices w
    ∧ clock w ≤ clock (wait_for_opensearch timeout_sec w).2.
Proof.
  destruct (wait_loop_effects (wait_fuel timeout_sec w) (clock w) timeout_sec w)
    as (sent & Hlog & Hsent & _ & Hclock).
  exists sent. split_and!; [done | done | | done].
  apply wait_for_opensearch_indices.
Qed.

(** ** Startup and seeding *)

Lemma filter_all {A} (P : A → Prop) `{∀ x, Decision (P x)} (l : list A) :
  (∀ x, x ∈ l → P x) → filter P l = l.
Proof.
  induction l as [|x l IH]; intros Hall; [done|].
  rewrite filter_cons_True by (apply Hall, list_elem_of_here).
  rewrite IH; [done|]. intros y Hy. by apply Hall, list_elem_of_further.
Qed.

(** Writing documents under distinct ids replaces the documents of those
    ids and keeps all the others, in their order. *)
Lemma index_all_distinct (docs old : list (Z * object)) :
  NoDup ((λ d, d.1 + 1)%Z <$> docs) →
  index_all docs old
  = filter (λ d, d.1 ∉ (λ d, d.1 + 1)%Z <$> docs) old
    ++ ((λ d, ((d.1 + 1)%Z, d.2)) <$> docs).
Proof.
  induction docs as [|x docs IH] using rev_ind; intros Hdistinct.
  - simpl. rewrite app_nil_r. symmetry. apply filter_all.
    intros d _. apply not_elem_of_nil.
  - rewrite fmap_app in Hdistinct. simpl in Hdistinct.
    apply NoDup_app in Hdistinct as (Hdocs & Hfresh & _).
    unfold index_all in *. rewrite foldl_snoc, (IH Hdocs). unfold put_doc.
    rewrite filter_app, !fmap_app, <-!app_assoc. simpl. f_equal; [|f_equal].
    + rewrite list_filter_filter. apply list_filter_iff. intros d.
      rewrite elem_of_app, list_elem_of_singleton. tauto.
    + apply filter_all. intros d (d' & -> & Hd')%list_elem_of_fmap. simpl.
      intros Heq. apply (Hfresh (d'.1 + 1)%Z).
      * apply list_elem_of_fmap. eauto.
      * rewrite Heq. apply list_elem_of_here.
Qed.

Lemma index_all_seed (old : list (Z * object)) :
  index_all (enumerate seed) old
  = filter (λ d, d.1 ∉ seed_ids) old ++ (stored_document <$> seed_documents).
Proof.
  rewrite index_all_distinct.
  - f_equal.
  - by_evaluation.
Qed.

(** X6.  When no answer of the engine carries a status, [startup] ends
    with the timeout error of the wait: no index is looked up, created or
    written, as the only requests sent are health requests. *)
Theorem startup_stops_without_engine (environ : gmap pystr pystr) (w : world) :
  Forall (λ r, ¬ healthy r) (health_script w) →
  (startup environ w).1 = Raised (RuntimeError (str "OpenSearch not available"))
  ∧ indices (startup environ w).2 = indices w
  ∧ ∃ sent,
      requests (startup environ w).2 = requests w ++ sent
      ∧ Forall (λ entry, entry.2 = ReqHealth) sent.
Proof.
  intros Hscript.
  destruct (wait_for_opensearch_total 60 w) as [(_ & r & Hr & Hh) | Hraise].
  { rewrite Forall_forall in Hscript. by destruct (Hscript r Hr). }
  rewrite (startup_raises environ w _ Hraise). cbn [fst snd].
  destruct (wait_for_opensearch_only_polls_health_aux 60 w)
    as (sent & Hlog & Hsent & Hindices & _).
  split_and!; [done | done | by exists sent].
Qed.

Lemma startup_stops_without_engine_witness :
  (startup ∅ (World ∅ [] 0 [refused; no_status])).1
  = Raised (RuntimeError (str "OpenSearch not available"))
  ∧ indices (startup ∅ (World ∅ [] 0 [refused; no_status])).2 = ∅.
Proof.
  destruct (startup_stops_without_engine ∅ (World ∅ [] 0 [refused; no_status]))
    as (Hraise & Hindices & _).
  - repeat constructor; intros (h & Hout & Hok); simpl in Hout;
      [discriminate Hout | injection Hout as <-; discriminate Hok].
  - done.
Defined.

(** X7.  When the wait succeeds, [startup] succeeds.  Afterwards the
    configured index exists and has at least one searchable document, no
    index of another name has changed, and an index that already had
    searchable documents is exactly as it was. *)
Theorem startup_leaves_searchable_index (environ : gmap pystr pystr) (w : world) :
  (wait_for_opensearch 60 w).1 = Ok true →
  (startup environ w).1 = Ok tt
  ∧ (∃ idx, indices (startup environ w).2 !! INDEX_NAME environ = Some idx
            ∧ searchable idx ≠ [])
  ∧ (∀ other, other ≠ INDEX_NAME environ →
       indices (startup environ w).2 !! other = indices w !! other)
  ∧ (∀ old, indices w !! INDEX_NAME environ = Some old → searchable old ≠ [] →
       indices (startup environ w).2 = indices w).
Proof.
  intros Hwait.
  destruct (startup_ok environ w true Hwait) as (w1 & Hrun & Hw1).
  rewrite Hrun. cbn [fst snd]. rewrite Hw1. split_and!.
  - done.
  - eexists. split; [apply lookup_insert_eq | apply seeded_searchable].
  - intros other Hother. by rewrite lookup_insert_ne.
  - intros old Hold Hne. rewrite Hold. cbn. unfold seeded.
    destruct (searchable old) eqn:Hs; [done|]. by rewrite insert_id.
Qed.

Lemma startup_leaves_searchable_index_witness :
  (startup ∅ fresh_world).1 = Ok tt
  ∧ (∃ idx, indices (startup ∅ fresh_world).2 !! INDEX_NAME ∅ = Some idx
            ∧ searchable idx ≠ [])
  ∧ indices (startup ∅ fresh_world).2 !! (str "other") = None.
Proof.
  destruct (startup_leaves_searchable_index ∅ fresh_world)
    as (Hok & Hidx & Hother & _); [vm_compute; reflexivity|].
  split_and!; [done | done |].
  rewrite Hother by str_neq. vm_compute. reflexivity.
Defined.

(** X8.  Seeding deletes nothing it does not overwrite: when the count is
    zero, the documents stored under the ids 1 to 5 are replaced by the
    seed documents, every document stored under another id is kept, and the
    refresh makes all of them searchable; the mapping stays. *)
Theorem seed_docs_keeps_other_documents (environ : gmap pystr pystr) (w : world)
    (idx : index) :
  indices w !! INDEX_NAME environ = Some idx →
  searchable idx = [] →
  ∃ idx',
    indices (seed_docs environ w).2 !! INDEX_NAME environ = Some idx'
    ∧ stored idx'
      = filter (λ d, d.1 ∉ seed_ids) (stored idx)
        ++ (stored_document <$> seed_documents)
    ∧ searchable idx' = stored idx'
    ∧ idx_body idx' = idx_body idx.
Proof.
  intros Hidx Hempty.
  rewrite (seed_docs_empty environ w idx Hidx Hempty). cbn [snd indices].
  eexists. split; [apply lookup_insert_eq|].
  unfold seeded. rewrite Hempty. cbn [stored searchable idx_body].
  by rewrite index_all_seed.
Qed.

Lemma seed_docs_keeps_other_documents_witness :
  ∃ idx',
    indices (seed_docs ∅ pending_world).2 !! INDEX_NAME ∅ = Some idx'
    ∧ stored idx'
      = (9%Z, document (str "old9") (str "also written before") (str "news"))
        :: (stored_document <$> seed_documents).
Proof.
  destruct (seed_docs_keeps_other_documents ∅ pending_world
              (Index (Some index_mapping)
                 [ (2%Z, document (str "old2") (str "written before") (str "blog"));
                   (9%Z, document (str "old9") (str "also written before") (str "news")) ]
                 []))
    as (idx' & Hidx' & Hstored & _); [vm_compute; reflexivity | reflexivity |].
  exists idx'. split; [done|]. rewrite Hstored. vm_compute. reflexivity.
Defined.

(** X9.  On a missing index [seed_docs] fails with the error of the count
    request and writes nothing: it does not create the index. *)
Theorem seed_docs_needs_index (environ : gmap pystr pystr) (w : world) :
  indices w !! INDEX_NAME environ = None →
  seed_docs environ w
  = (Raised NotFoundError, add_request (ReqCount (INDEX_NAME environ)) w).
Proof.
  intros Hnone. unfold seed_docs.
  apply bind_raised. unfold count, bind. simpl. by rewrite Hnone.
Qed.

Lemma seed_docs_needs_index_witness :
  seed_docs ∅ fresh_world
  = (Raised NotFoundError, add_request (ReqCount (INDEX_NAME ∅)) fresh_world).
Proof.
  apply seed_docs_needs_index. vm_compute. reflexivity.
Defined.

(** ** The read endpoints *)

Lemma document_content_type (t c ty : pystr) :
  document t c ty !! (str "content_type") = Some (JStr ty).
Proof.
  unfold document. rewrite !lookup_insert_ne by str_neq.
  apply lookup_singleton_eq.
Qed.

Lemma filter_fmap_commute {A B} (f : A → B) (P : B → Prop)
    `{∀ y, Decision (P y)} (l : list A) :
  filter P (f <$> l) = f <$> filter (λ x, P (f x)) l.
Proof.
  induction l as [|x l IH]; [done|].
  csimpl. rewrite !filter_cons, IH. by case_decide.
Qed.

Lemma formatted_all_snippets (hits : list hit) (items : list SearchResponseItem) :
  formatted_all hits = Ok items →
  Forall (λ item, length (snippet item) ≤ 50) items.
Proof.
  revert items. induction hits as [|h hits IH]; intros items; simpl.
  - intros [= <-]. constructor.
  - destruct (formatted h) as [item|] eqn:Hitem; [|done].
    destruct (formatted_all hits) as [items'|]; [|done].
    intros [= <-]. constructor; [|by apply IH].
    unfold formatted in Hitem.
    destruct (dict_get (hit_source h) (str "title") (JStr [])); [done|].
    injection Hitem as <-. simpl. rewrite length_take. apply Nat.le_min_l.
Qed.

(** One hit with a [null] title makes the whole formatting fail. *)
Lemma formatted_all_null_title (hits : list hit) (h : hit) :
  h ∈ hits →
  hit_source h !! (str "title") = Some JNull →
  formatted_all hits = Raised ValidationError.
Proof.
  intros Hin Hnull.
  assert (Hfail : ∀ h' e, formatted h' = Raised e → e = ValidationError).
  { intros h' e. unfold formatted.
    destruct (dict_get (hit_source h') (str "title") (JStr [])); [|done].
    by intros [= <-]. }
  induction hits as [|h' hits IH]; [by apply elem_of_nil in Hin|].
  simpl. apply elem_of_cons in Hin as [-> | Hin].
  - unfold formatted, dict_get. by rewrite Hnull.
  - rewrite (IH Hin). destruct (formatted h') as [item|e] eqn:Hh'; [done|].
    by rewrite (Hfail h' e Hh').
Qed.

Section Reading.

Variable environ : gmap pystr pystr.
Variable am : pystr → pystr → bool.

Local Abbreviation name := (INDEX_NAME environ).

Lemma do_search_world (q : pystr) (content_type : option pystr) (w : world) :
  (do_search environ am q content_type w).2 = w
  ∨ ∃ body, (do_search environ am q content_type w).2
            = add_request (ReqSearch name body) w.
Proof.
  unfold do_search.
  destruct content_type as [ct|]; [destruct (truthy ct); [case_bool_decide|]|];
    first [by left | right; eexists; apply run_query_world].
Qed.

Lemma do_search_read_only (q : pystr) (content_type : option pystr) (w : world) :
  read_only_step name w (do_search environ am q content_type w).2.
Proof.
  destruct (do_search_world q content_type w) as [-> | (body & ->)].
  - split_and!; [done..|by left].
  - split_and!; [done..|]. right. by exists body.
Qed.

Lemma do_search_items (q : pystr) (content_type : option pystr) (w : world)
    (items : list SearchResponseItem) :
  (do_search environ am q content_type w).1 = Ok items →
  length items ≤ 25 ∧ Forall (λ item, length (snippet item) ≤ 50) items.
Proof.
  assert (Hrun : ∀ must, (run_query environ am must w).1 = Ok items →
            length items ≤ 25 ∧ Forall (λ item, length (snippet item) ≤ 50) items).
  { intros must. rewrite run_query_eq.
    destruct (indices w !! name) as [idx|]; [|done]. cbn [fst]. intros Hitems.
    split; [|by apply (formatted_all_snippets _ _ Hitems)].
    rewrite (formatted_all_length _ _ Hitems). unfold run_search.
    rewrite length_take. apply Nat.le_min_l. }
  unfold do_search.
  destruct content_type as [ct|]; [destruct (truthy ct); [case_bool_decide|]|];
    first [apply Hrun | intros [= <-]; split; [simpl; lia | constructor]].
Qed.

(** On typed documents the query built for [q] and [content_type] selects
    as [selects] says. *)
Lemma query_matches_document (q : pystr) (content_type : option pystr)
    (d : Z * (pystr * pystr * pystr)) :
  query_matches am (sb_query (request_body (must_clauses q content_type)))
    (stored_document d).2
  = selects am q content_type d.
Proof.
  destruct d as [i [[t c] ty]].
  assert (Hterm : ∀ ct,
            clause_matches am (Term (str "content_type") ct) (document t c ty)
            = bool_decide (ty = ct)).
  { intros ct. cbn [clause_matches]. rewrite document_content_type.
    apply bool_decide_ext. split; [by intros [= ->] | by intros ->]. }
  assert (Hmm : clause_matches am (MultiMatch q [str "title"; str "content"])
                  (document t c ty)
                = am q t || am q c).
  { cbn [clause_matches existsb]. rewrite document_title, document_content.
    by rewrite orb_false_r. }
  unfold request_body, must_clauses, selects, stored_document.
  cbn [fst snd sb_query].
  destruct (truthy q), content_type as [ct|]; try destruct (truthy ct);
    cbn [app]; case_bool_decide as Hmust; try done;
    cbn [query_matches forallb]; by rewrite ?Hterm, ?Hmm, ?andb_true_r.
Qed.

End Reading.

(** X10.  The read endpoints never write: whatever the parameters,
    [do_search], [home] and [api_search] leave every index, the clock and
    the health script as they are, and add to the request log at most one
    entry, a search on the configured index. *)
Theorem read_endpoints_never_write (environ : gmap pystr pystr)
    (am : pystr → pystr → bool) (q : pystr) (content_type : option pystr)
    (w : world) :
  read_only_step (INDEX_NAME environ) w (do_search environ am q content_type w).2
  ∧ read_only_step (INDEX_NAME environ) w (home environ am q content_type w).2
  ∧ read_only_step (INDEX_NAME environ) w (api_search environ am q content_type w).2.
Proof.
  pose proof (do_search_read_only environ am q content_type w) as Hread.
  split_and!; [done | |].
  - rewrite home_eq. destruct (truthy q || truthy_opt content_type).
    + by destruct (do_search environ am q content_type w).
    + split_and!; [done..|by left].
  - rewrite api_search_eq. by destruct (do_search environ am q content_type w).
Qed.

(** X11.  Whenever the JSON endpoint answers, it answers with at most 25
    objects; each of them has exactly the keys [title] and [snippet], both
    strings, and its snippet has at most 50 characters. *)
Theorem api_search_response_shape (environ : gmap pystr pystr)
    (am : pystr → pystr → bool) (q : pystr) (content_type : option pystr)
    (w : world) (response : list object) :
  (api_search environ am q content_type w).1 = Ok response →
  length response ≤ 25
  ∧ Forall (λ o : object,
              dom o = {[ str "title"; str "snippet" ]}
              ∧ ∃ t s, o !! (str "title") = Some (JStr t)
                       ∧ o !! (str "snippet") = Some (JStr s)
                       ∧ length s ≤ 50) response.
Proof.
  rewrite api_search_eq.
  pose proof (do_search_items environ am q content_type w) as Hitems.
  destruct (do_search environ am q content_type w) as [[items|e] w']; [|done].
  cbn [fst map_result]. intros [= <-].
  destruct (Hitems items eq_refl) as [Hlen Hsnippets].
  split; [by rewrite length_fmap|].
  apply Forall_fmap. eapply Forall_impl; [exact Hsnippets|].
  intros [t s] Hs. simpl in *. unfold model_dump. cbn [title snippet]. split.
  - rewrite dom_insert_L, dom_singleton_L. done.
  - exists t, s. split_and!; [apply lookup_insert_eq | | done].
    rewrite lookup_insert_ne by str_neq. apply lookup_singleton_eq.
Qed.

Lemma api_search_response_shape_witness :
  length (expected_object <$> seed_documents) ≤ 25.
Proof.
  apply (api_search_response_shape ∅ whole_value_match (str "") None seeded_world).
  vm_compute. reflexivity.
Defined.

(** X12.  On an index of documents with string fields, and with a filter
    that is empty or allowed, [do_search] returns the records of the
    selected documents in index order, the first 25 of them: a non-empty
    [q] selects by full-text match on title or content, a non-empty
    [content_type] by equality of the content type, and both together by
    their conjunction. *)
Theorem do_search_selects_in_order (environ : gmap pystr pystr)
    (am : pystr → pystr → bool) (q : pystr) (content_type : option pystr)
    (w : world) (idx : index) (docs : list (Z * (pystr * pystr * pystr))) :
  content_type = None ∨ content_type = Some []
  ∨ (∃ ct, content_type = Some ct ∧ ct ∈ CONTENT_TYPES environ) →
  indices w !! INDEX_NAME environ = Some idx →
  searchable idx = stored_document <$> docs →
  (do_search environ am q content_type w).1
  = Ok (expected_item
          <$> take 25 (filter (λ d, selects am q content_type d = true) docs)).
Proof.
  intros Hvalid Hidx Hdocs.
  rewrite do_search_passes; cycle 1.
  { destruct Hvalid as [-> | [-> | ?]]; [by left | by left | by right]. }
  rewrite run_query_eq, Hidx. cbn [fst].
  unfold run_search. rewrite Hdocs.
  change (sb_size (request_body _)) with 25.
  change (sb_source (request_body _)) with [str "title"; str "content"].
  rewrite filter_fmap_commute.
  rewrite (list_filter_iff _ (λ d, selects am q content_type d = true)); cycle 1.
  { intros d. by rewrite query_matches_document. }
  by rewrite <-!fmap_take, formatted_all_documents.
Qed.

Lemma do_search_selects_in_order_witness :
  (do_search ∅ whole_value_match (str "") (Some (str "article")) seeded_world).1
  = Ok [ Item (str "title1") (str "content1");
         Item (str "title5") (str "content5") ]
  ∧ (do_search ∅ whole_value_match (str "content3") (Some (str "blog")) seeded_world).1
    = Ok [ Item (str "title3") (str "content3") ]
  ∧ (do_search ∅ whole_value_match (str "content3") (Some (str "news")) seeded_world).1
    = Ok [].
Proof.
  set (seeded_index := Index (Some index_mapping)
                          (stored_document <$> seed_documents)
                          (stored_document <$> seed_documents)).
  assert (Hidx : indices seeded_world !! INDEX_NAME ∅ = Some seeded_index)
    by (vm_compute; reflexivity).
  split_and!.
  - rewrite (do_search_selects_in_order ∅ whole_value_match (str "")
               (Some (str "article")) seeded_world seeded_index seed_documents);
      [vm_compute; reflexivity | | exact Hidx | reflexivity].
    right. right. exists (str "article"). split; [reflexivity | by_evaluation].
  - rewrite (do_search_selects_in_order ∅ whole_value_match (str "content3")
               (Some (str "blog")) seeded_world seeded_index seed_documents);
      [vm_compute; reflexivity | | exact Hidx | reflexivity].
    right. right. exists (str "blog"). split; [reflexivity | by_evaluation].
  - rewrite (do_search_selects_in_order ∅ whole_value_match (str "content3")
               (Some (str "news")) seeded_world seeded_index seed_documents);
      [vm_compute; reflexivity | | exact Hidx | reflexivity].
    right. right. exists (str "news"). split; [reflexivity | by_evaluation].
Defined.

(** X13.  The errors of the engine are not caught: on a missing index, and
    with a filter that is empty or allowed, [do_search] and the JSON
    endpoint raise the [NotFoundError] of the search request, and so does
    the HTML endpoint whenever it searches. *)
Theorem search_errors_propagate (environ : gmap pystr pystr)
    (am : pystr → pystr → bool) (q : pystr) (content_type : option pystr)
    (w : world) :
  indices w !! INDEX_NAME environ = None →
  content_type = None ∨ content_type = Some []
  ∨ (∃ ct, content_type = Some ct ∧ ct ∈ CONTENT_TYPES environ) →
  (do_search environ am q content_type w).1 = Raised NotFoundError
  ∧ (api_search environ am q content_type w).1 = Raised NotFoundError
  ∧ (q ≠ [] ∨ (∃ ct, content_type = Some ct ∧ ct ≠ []) →
     (home environ am q content_type w).1 = Raised NotFoundError).
Proof.
  intros Hnone Hvalid.
  assert (Hsearch : (do_search environ am q content_type w).1 = Raised NotFoundError).
  { rewrite do_search_passes; cycle 1.
    { destruct Hvalid as [-> | [-> | ?]]; [by left | by left | by right]. }
    by rewrite run_query_eq, Hnone. }
  split_and!; [done | |].
  - rewrite api_search_eq.
    by destruct (do_search environ am q content_type w) as [[items|e] w'];
      simpl in *; simplify_eq.
  - intros Hinput. rewrite home_eq.
    assert (truthy q || truthy_opt content_type = true) as ->.
    { destruct Hinput as [Hq%truthy_nonempty | (ct & -> & Hct%truthy_nonempty)]; simpl.
      - by rewrite Hq.
      - rewrite Hct. by destruct (truthy q). }
    by destruct (do_search environ am q content_type w) as [[items|e] w'];
      simpl in *; simplify_eq.
Qed.

Lemma search_errors_propagate_witness :
  (do_search ∅ whole_value_match (str "x") None fresh_world).1 = Raised NotFoundError
  ∧ (api_search ∅ whole_value_match (str "x") None fresh_world).1 = Raised NotFoundError
  ∧ (home ∅ whole_value_match (str "x") None fresh_world).1 = Raised NotFoundError.
Proof.
  destruct (search_errors_propagate ∅ whole_value_match (str "x") None fresh_world)
    as (Hsearch & Hapi & Hhome); [vm_compute; reflexivity | by left |].
  split_and!; [done | done |]. apply Hhome. left. str_neq.
Defined.

(** X14.  A missing title or content is read as the empty string and a
    [null] content as well, but a [null] title is not: when one of the
    first 25 searchable documents has a [null] title, the unfiltered
    listing of the JSON endpoint fails with a [ValidationError] instead of
    answering with the other documents. *)
Theorem api_search_null_title_fails (environ : gmap pystr pystr)
    (am : pystr → pystr → bool) (w : world) (idx : index) (d : Z * object) :
  indices w !! INDEX_NAME environ = Some idx →
  d ∈ take 25 (searchable idx) →
  d.2 !! (str "title") = Some JNull →
  (api_search environ am [] None w).1 = Raised ValidationError.
Proof.
  intros Hidx Hd Hnull.
  rewrite api_search_eq, do_search_passes by (by left).
  rewrite run_query_eq, Hidx.
  change (request_body (must_clauses [] None))
    with (SearchBody MatchAll [str "title"; str "content"] 25).
  unfold run_search. cbn [sb_query sb_source sb_size].
  rewrite filter_match_all, <-fmap_take.
  erewrite formatted_all_null_title; [done | |].
  - apply list_elem_of_fmap. by exists d.
  - simpl. apply source_filter_lookup; [apply list_elem_of_here | done].
Qed.

Lemma api_search_null_title_fails_witness :
  (api_search ∅ whole_value_match [] None null_title_world).1
  = Raised ValidationError.
Proof.
  apply (api_search_null_title_fails ∅ whole_value_match null_title_world
           (Index (Some index_mapping)
              [ (1%Z, document (str "fine") (str "text") (str "blog"));
                (2%Z, {[ str "title" := JNull; str "content" := JStr (str "text") ]}) ]
              [ (1%Z, document (str "fine") (str "text") (str "blog"));
                (2%Z, {[ str "title" := JNull; str "content" := JStr (str "text") ]}) ])
           (2%Z, {[ str "title" := JNull; str "content" := JStr (str "text") ]})).
  - vm_compute. reflexivity.
  - simpl. apply list_elem_of_further, list_elem_of_here.
  - vm_compute. reflexivity.
Defined.

(** X15.  The HTML endpoint with a non-empty filter outside the allow-list
    renders the page with no result and with that filter still shown as
    the selected type; it raises nothing and sends nothing to the
    engine. *)
Theorem home_unknown_type_renders_empty (environ : gmap pystr pystr)
    (am : pystr → pystr → bool) (q ct : pystr) (w : world) :
  ct ≠ [] →
  ct ∉ CONTENT_TYPES environ →
  home environ am q (Some ct) w
  = (Ok {| ctx_q := q; ctx_content_types := CONTENT_TYPES environ;
           ctx_selected_type := ct; ctx_results := [] |}, w).
Proof.
  intros Hne Hnot. rewrite home_eq, do_search_rejects by done.
  apply truthy_nonempty in Hne. cbn [truthy_opt opt_or_empty]. rewrite Hne.
  by rewrite orb_true_r.
Qed.

Lemma home_unknown_type_renders_empty_witness :
  home ∅ whole_value_match (str "title1") (Some (str "video")) seeded_world
  = (Ok {| ctx_q := str "title1"; ctx_content_types := CONTENT_TYPES ∅;
           ctx_selected_type := str "video"; ctx_results := [] |}, seeded_world).
Proof.
  apply home_unknown_type_renders_empty; [str_neq | by_evaluation].
Defined.

(** ** More on the configuration *)

(** The pieces of a split are made of characters of the string, none of
    them the separator. *)
Lemma split_pieces (sep : N) (s : pystr) :
  ∀ p c, p ∈ split sep s → c ∈ p → c ∈ s ∧ c ≠ sep.
Proof.
  induction s as [|c0 s IH]; intros p c; simpl.
  - intros ->%list_elem_of_singleton Hc. by apply elem_of_nil in Hc.
  - destruct (N.eqb_spec c0 sep) as [-> | Hc0].
    + intros [-> | Hp]%elem_of_cons Hc; [by apply elem_of_nil in Hc|].
      destruct (IH p c Hp Hc). split; [by apply list_elem_of_further | done].
    + destruct (split sep s) as [|p0 ps] eqn:Hsplit.
      * intros ->%list_elem_of_singleton ->%list_elem_of_singleton.
        split; [apply list_elem_of_here | done].
      * intros [-> | Hp]%elem_of_cons Hc.
        -- apply elem_of_cons in Hc as [-> | Hc];
             [split; [apply list_elem_of_here | done]|].
           destruct (IH p0 c (list_elem_of_here _ _) Hc).
           split; [by apply list_elem_of_further | done].
        -- destruct (IH p c (list_elem_of_further _ _ _ Hp) Hc).
           split; [by apply list_elem_of_further | done].
Qed.

(** A split has one more piece than the string has separators. *)
Lemma split_length (sep : N) (s : pystr) :
  length (split sep s) = S (length (filter (λ c, c = sep) s)).
Proof.
  induction s as [|c0 s IH]; [done|]. simpl.
  destruct (N.eqb_spec c0 sep) as [-> | Hc0].
  - rewrite filter_cons_True by done. simpl. by rewrite IH.
  - rewrite filter_cons_False by done.
    destruct (split sep s) as [|p0 ps]; [simpl in IH; lia | done].
Qed.

Lemma strip_subseteq (s : pystr) (c : N) : c ∈ strip s → c ∈ s.
Proof.
  intros Hc. unfold strip in Hc.
  destruct (lstrip_decompose s) as (before & Hs & _).
  destruct (rstrip_decompose (lstrip s)) as (after & Hl & _).
  rewrite Hs, Hl, !elem_of_app. auto.
Qed.

Lemma lstrip_all_space (s : pystr) :
  Forall (λ c, isspace c = true) s → lstrip s = [].
Proof. induction 1 as [|c s Hc _ IH]; [done|]. simpl. by rewrite Hc. Qed.

Lemma strip_all_space (s : pystr) :
  Forall (λ c, isspace c = true) s → strip s = [].
Proof. intros Hs. unfold strip. by rewrite (lstrip_all_space s Hs). Qed.

Lemma filter_none {A} (P : A → Prop) `{∀ x, Decision (P x)} (l : list A) :
  (∀ x, x ∈ l → ¬ P x) → filter P l = [].
Proof.
  induction l as [|x l IH]; intros Hnone; [done|].
  rewrite filter_cons_False by (apply Hnone, list_elem_of_here).
  apply IH. intros y Hy. by apply Hnone, list_elem_of_further.
Qed.

(** X16.  An entry of the allow-list is made of characters of the
    configured value and holds no comma, so a content type with a comma in
    it cannot be configured; and there are at most as many entries as the
    value has commas, plus one. *)
Theorem content_types_entries_comma_free (environ : gmap pystr pystr) :
  let value := getenv environ (str "CONTENT_TYPES") (str "article,news,blog,report") in
  (∀ ct c, ct ∈ CONTENT_TYPES environ → c ∈ ct → c ∈ value ∧ c ≠ comma)
  ∧ length (CONTENT_TYPES environ) ≤ S (length (filter (λ c, c = comma) value)).
Proof.
  cbv zeta. split.
  - intros ct c. rewrite CONTENT_TYPES_unfold. unfold allow_list_spec.
    rewrite list_elem_of_filter, list_elem_of_fmap.
    intros (_ & piece & -> & Hpiece) Hc%strip_subseteq.
    by apply (split_pieces comma _ piece).
  - rewrite CONTENT_TYPES_unfold. unfold allow_list_spec.
    etrans; [apply length_filter|]. by rewrite length_fmap, split_length.
Qed.

Lemma content_types_entries_comma_free_witness :
  (97%N ∈ str " a, ,b " ∧ 97%N ≠ comma)
  ∧ length (CONTENT_TYPES (<[(str "CONTENT_TYPES") := str " a, ,b "]> ∅)) ≤ 3.
Proof.
  destruct (content_types_entries_comma_free (<[(str "CONTENT_TYPES") := str " a, ,b "]> ∅))
    as [Hchars Hlen].
  split.
  - apply (Hchars (str "a") 97%N); by_evaluation.
  - etrans; [exact Hlen|]. vm_compute. lia.
Defined.

(** X17.  A configured value made of commas and whitespace only gives the
    empty allow-list, and then every non-empty [content_type] is answered
    with the empty list, whatever the query. *)
Theorem content_types_blank_rejects_all (environ : gmap pystr pystr)
    (value : pystr) :
  Forall (λ c, c = comma ∨ isspace c = true) value →
  CONTENT_TYPES (<[(str "CONTENT_TYPES") := value]> environ) = []
  ∧ ∀ am q ct w,
      ct ≠ [] →
      do_search (<[(str "CONTENT_TYPES") := value]> environ) am q (Some ct) w
      = (Ok [], w).
Proof.
  intros Hblank.
  assert (Hempty : CONTENT_TYPES (<[(str "CONTENT_TYPES") := value]> environ) = []).
  { rewrite CONTENT_TYPES_unfold. unfold getenv. rewrite lookup_insert_eq.
    cbn. unfold allow_list_spec. apply filter_none.
    intros ? (piece & -> & Hpiece)%list_elem_of_fmap Hne. apply Hne.
    apply strip_all_space, Forall_forall. intros c Hc.
    destruct (split_pieces comma value piece c Hpiece Hc) as [Hin Hsep].
    rewrite Forall_forall in Hblank. by destruct (Hblank c Hin). }
  split; [done|]. intros am q ct w Hne.
  apply do_search_rejects; [done|]. rewrite Hempty. apply not_elem_of_nil.
Qed.

Lemma content_types_blank_rejects_all_witness :
  CONTENT_TYPES (<[(str "CONTENT_TYPES") := str " , ,,  "]> ∅) = []
  ∧ do_search (<[(str "CONTENT_TYPES") := str " , ,,  "]> ∅) whole_value_match
      (str "title1") (Some (str "article")) seeded_world
    = (Ok [], seeded_world).
Proof.
  destruct (content_types_blank_rejects_all ∅ (str " , ,,  ")) as [Hempty Hrejects].
  - apply (bool_decide_unpack _). vm_compute. exact I.
  - split; [done|]. apply Hrejects. str_neq.
Defined.

(** ** Hits with a [null] field *)

(** C3.  Not every hit is formatted.  For the content the source reads
    [src.get("content", "") or ""], so a [null] content gives the empty
    snippet; for the title it reads [src.get("title", "")] alone, so a
    missing title gives the empty title but a [null] title reaches the
    constructor of the record, which raises a [ValidationError]: no record
    is produced for that hit, and none for a list of hits that holds it. *)
Theorem format_hit_null_title_raises :
  format_hit null_title_hit fresh_world = (Raised ValidationError, fresh_world)
  ∧ format_hits [null_content_hit; null_title_hit; missing_title_hit] fresh_world
    = (Raised ValidationError, fresh_world)
  ∧ format_hit null_content_hit fresh_world
    = (Ok {| title := str "fine"; snippet := str "" |}, fresh_world)
  ∧ format_hit missing_title_hit fresh_world
    = (Ok {| title := str ""; snippet := str "text" |}, fresh_world).
Proof.
  split_and!.
  - rewrite format_hit_eq. vm_compute. reflexivity.
  - rewrite format_hits_eq. vm_compute. reflexivity.
  - rewrite format_hit_eq. vm_compute. reflexivity.
  - rewrite format_hit_eq. vm_compute. reflexivity.
Qed.
